(** * Proposal lifecycle formulas of the indexer (daoProposalSingle)

    A shallow embedding of
    [src/data/formulas/contract/proposal/daoProposalSingle/formulas.ts].

    Every formula is an [async] function over a read-only query environment.
    A formula is embedded as a program in a free monad whose only effects are
    the environment's accessors ([await get(...)], ...) and [throw]; the
    formulas that use [Promise.all] live one level up, in a monad that also has
    a node for a pool of concurrently awaited tasks.  Programs are run against
    an environment by [runT] and [run], which also record the accessor calls
    in the order they were made; [exec] runs the pools under every
    interleaving.

    [intoResponse] assigns to [proposal.status] in place.  The record it
    updates is the one it was handed and the one its response carries, and the
    tasks of one pool are handed the records of different ids, so the update
    is embedded as a function from the stored record to the updated one. *)

From Stdlib Require Import ZArith String Ascii DecimalString DecimalZ.
From stdpp Require Import gmap strings list sorting relations.

Local Open Scope string_scope.
Local Open Scope Z_scope.
Local Open Scope list_scope.
Local Open Scope stdpp_scope.

(** ** JavaScript values the formulas compute with *)

(** [StatusEnum] of [../types]: the string-valued members of a proposal's
    status.  The formulas name [Open], [Rejected], [Passed], [Executed],
    [Closed] and [ExecutionFailed]; [Vetoed] stands for the member the
    formulas never name. *)
Module StatusEnum.
Inductive t := Open | Rejected | Passed | Executed | Closed | ExecutionFailed | Vetoed.
#[global] Instance eq_dec : EqDecision t.
Proof. solve_decision. Defined.
(** [a === b] *)
Definition eqb (a b : t) : bool :=
  match a, b with
  | Open, Open | Rejected, Rejected | Passed, Passed | Executed, Executed
  | Closed, Closed | ExecutionFailed, ExecutionFailed | Vetoed, Vetoed => true
  | _, _ => false
  end.
End StatusEnum.

(** A JavaScript number, at the values ids, limits and cursors take: [NaN],
    the two infinities and the integers. *)
Inductive number := NaN | NegInfinity | Num (z : Z) | Infinity.

#[global] Instance number_eq_dec : EqDecision number.
Proof. solve_decision. Defined.

Definition isNaN (n : number) : bool :=
  match n with NaN => true | _ => false end.

(** [a < b]; every comparison with [NaN] is false. *)
Definition lt (a b : number) : bool :=
  match a, b with
  | NaN, _ | _, NaN => false
  | _, NegInfinity => false
  | NegInfinity, _ => true
  | Infinity, _ => false
  | Num _, Infinity => true
  | Num x, Num y => x <? y
  end.

(** [a > b] *)
Definition gt (a b : number) : bool := lt b a.

(** [a <= b] *)
Definition le (a b : number) : bool :=
  match a, b with
  | NaN, _ | _, NaN => false
  | _, _ => negb (lt b a)
  end.

(** The double an exact integer result is rounded to.  A double holds 53
    significant bits: an integer below [2 ^ 53] in magnitude is kept as it
    is, a larger one is rounded to the nearest multiple of the power of two
    that leaves 53 bits, a tie going to the even multiple; a magnitude that
    rounds to [2 ^ 1024] or more overflows to an infinity. *)
Definition double (z : Z) : number :=
  let m := Z.abs z in
  if m <? 2 ^ 53 then Num z
  else
    let e := Z.log2 m - 52 in
    let q := m / 2 ^ e in
    let r := m mod 2 ^ e in
    let half := 2 ^ (e - 1) in
    let q' :=
      if r <? half then q
      else if half <? r then q + 1
      else if Z.even q then q else q + 1 in
    let v := q' * 2 ^ e in
    if 2 ^ 1024 <=? v then (if z <? 0 then NegInfinity else Infinity)
    else Num (Z.sgn z * v).

(** [a + b]: the exact sum, rounded to a double. *)
Definition add (a b : number) : number :=
  match a, b with
  | NaN, _ | _, NaN => NaN
  | Infinity, NegInfinity | NegInfinity, Infinity => NaN
  | Infinity, _ | _, Infinity => Infinity
  | NegInfinity, _ | _, NegInfinity => NegInfinity
  | Num x, Num y => double (x + y)
  end.

Module Math.
(** [Math.max(a, b)]: [NaN] as soon as one argument is. *)
Definition max (a b : number) : number :=
  match a, b with
  | NaN, _ | _, NaN => NaN
  | _, _ => if lt a b then b else a
  end.
End Math.

(** [array.slice(0, end)].  [end] goes through ToIntegerOrInfinity ([NaN] is
    0); a negative [end] counts from the end of the array. *)
Definition slice0 {A} (l : list A) (end_ : number) : list A :=
  match end_ with
  | NaN | NegInfinity => []
  | Infinity => l
  | Num z => if z <? 0 then take (length l - Z.to_nat (- z)) l else take (Z.to_nat z) l
  end.

(** [array.length] *)
Definition length_ {A} (l : list A) : number := Num (Z.of_nat (length l)).

(** A formula argument: arguments arrive as strings, and a missing one is
    [undefined]. *)
Definition arg := option string.

(** Truthiness of an argument ([!id], [limit ? ... : ...]): [undefined] and
    the empty string are falsy. *)
Definition truthy (a : arg) : bool :=
  match a with
  | Some s => negb (String.eqb s "")
  | None => false
  end.

(** [a || b] on optional strings: an absent or empty [a] gives [b]. *)
Definition or_ (a b : option string) : option string :=
  if truthy a then a else b.

(** The built-in functions the formulas call.  They are parameters of the
    development; the laws are the ones the formulas rely on: a number printed
    by [toString] reads back as itself, and neither [toString] nor
    [toISOString] ever gives the empty string. *)
Class Builtins := {
  Date : Type;
  Number : string -> number;
  toString : number -> string;
  localeCompare : string -> string -> Z;
  toISOString : Date -> string;
  Number_toString : forall n, Number (toString n) = n;
  toString_truthy : forall n, toString n <> "";
  toISOString_truthy : forall d, toISOString d <> "";
}.

(** [Number(a)] of an argument; [Number(undefined)] is [NaN]. *)
Definition NumberArg `{Builtins} (a : arg) : number :=
  match a with
  | Some s => Number s
  | None => NaN
  end.

(** The text of an argument inside a template literal. *)
Definition text (a : arg) : string :=
  match a with
  | Some s => s
  | None => "undefined"
  end.

Section Formulas.

Context `{JS : Builtins}.

(** ** Types of [./types] and [../../../../types]

    Their declarations are outside the sources: [Expiration], [Duration],
    [Ballot] and [Config] are parameters, and a proposal carries the fields the
    formulas read plus the rest of the record ([Rest]: votes, threshold,
    messages, ...), which the formulas only pass on. *)
Context {Expiration Duration Ballot Config Rest : Type}.

(** [config.dao] *)
Context (dao_ : Config -> string).

(** [Status = StatusEnum | { veto_timelock: { expiration } }] *)
Inductive Status :=
| Enum (s : StatusEnum.t)
| veto_timelock (expiration : Expiration).

Coercion Enum : StatusEnum.t >-> Status.

(** [status === s] for an enum member [s] *)
Definition status_is (status : Status) (s : StatusEnum.t) : bool :=
  match status with
  | Enum s' => StatusEnum.eqb s' s
  | veto_timelock _ => false
  end.

Record VetoConfig := { timelock_duration : Duration }.

Record SingleChoiceProposal := {
  status : Status;
  expiration : Expiration;
  veto : option VetoConfig;
  rest : Rest;
}.

(** [proposal.status = s]: the assignment updates the record in place; the
    updated record is the one the response carries. *)
Definition set_status (proposal : SingleChoiceProposal) (s : Status) : SingleChoiceProposal :=
  {| status := s; expiration := proposal.(expiration);
     veto := proposal.(veto); rest := proposal.(rest) |}.

Record ProposalResponse := {
  res_id : number;
  res_proposal : SingleChoiceProposal;
  createdAt : option string;
  completedAt : option string;
  executedAt : option string;
  closedAt : option string;
}.

(** [VoteCast<Ballot>] *)
Record VoteCast := {
  vc_voter : string;
  vc_vote : option Ballot;
  vc_votedAt : option string;
}.

(** [VoteInfo<Ballot>]: [{ voter, ...vote, votedAt }].  The ballot's fields are
    spread into the record; [vi_ballot] holds them ([None] when the spread
    value is [undefined]). *)
Record VoteInfo := {
  vi_voter : string;
  vi_ballot : option Ballot;
  vi_votedAt : option string;
}.

(** ** The query environment *)

(** The type a generic accessor is instantiated at ([get<T>]). *)
Inductive kind := KConfig | KProposal | KBallot | KNumber | KVoteCast.

Definition denote (T : kind) : Type :=
  match T with
  | KConfig => Config
  | KProposal => SingleChoiceProposal
  | KBallot => Ballot
  | KNumber => number
  | KVoteCast => VoteCast
  end.

(** A segment of a raw storage path. *)
Inductive key := KeyS (s : string) | KeyN (n : number).

(** A transformation match, [{ value, ... }]. *)
Record Match (V : Type) := { value : V }.
#[global] Arguments value {V} _.

(** Value predicates of the timestamp lookups: [{ status: { [Op.in]: l } }]
    and [{ status: s }]. *)
Inductive valueFilter := status_in (l : list string) | status_eq (s : string).

(** Name range of [getTransformationMatches]: [{ [Op.gt]: name }]. *)
Inductive nameFilter := Op_gt (name : string).

(** Modelled from the spec: the declaration of [ContractEnv] is outside the
    sources; the spec evaluates a formula at a query height and time, which is
    the block of the environment. *)
Record Block := { height : Z; timeUnixMs : Z }.

(** One accessor call [await env.accessor(...)], indexed by the type of its
    answer.  [contractAddress] is the first argument of every accessor.
    [getMap] is split by its key type: with [keyType: 'number'] (and for
    [getTransformationMap<number, _>]) the keys of the map are the proposal
    ids, integers; otherwise they are strings. *)
Inductive query : Type -> Type :=
| Get (T : kind) (address : string) (keys : list key) : query (option (denote T))
| GetMapNumber (T : kind) (address : string) (name : list key) : query (option (gmap Z (denote T)))
| GetMapString (T : kind) (address : string) (name : list key) : query (option (gmap string (denote T)))
| GetDateKeyModified (address : string) (keys : list key) : query (option Date)
| GetDateKeyFirstSet (address : string) (keys : list key) : query (option Date)
| GetDateKeyFirstSetWithValueMatch (address : string) (keys : list key) (where_ : valueFilter) : query (option Date)
| GetTransformationMatch (T : kind) (address name : string) : query (option (Match (denote T)))
| GetTransformationMatches (T : kind) (address name : string) (whereName : option nameFilter) (limit : option number) : query (option (list (Match (denote T))))
| GetTransformationMap (T : kind) (address name : string) : query (option (gmap Z (denote T)))
| GetDateFirstTransformed (address name : string) (where_ : option valueFilter) : query (option Date).

(** [ContractEnv]: the contract, the block, and the accessors as functions of
    their arguments (the environment is a read-only snapshot). *)
Record ContractEnv := {
  contractAddress : string;
  block : Block;
  get : forall T, string -> list key -> option (denote T);
  getMapNumber : forall T, string -> list key -> option (gmap Z (denote T));
  getMapString : forall T, string -> list key -> option (gmap string (denote T));
  getDateKeyModified : string -> list key -> option Date;
  getDateKeyFirstSet : string -> list key -> option Date;
  getDateKeyFirstSetWithValueMatch : string -> list key -> valueFilter -> option Date;
  getTransformationMatch : forall T, string -> string -> option (Match (denote T));
  getTransformationMatches : forall T, string -> string -> option nameFilter -> option number -> option (list (Match (denote T)));
  getTransformationMap : forall T, string -> string -> option (gmap Z (denote T));
  getDateFirstTransformed : string -> string -> option valueFilter -> option Date;
}.

(** What the environment answers to a call. *)
Definition answer (env : ContractEnv) {X} (q : query X) : X :=
  match q in query X return X with
  | Get T a ks => env.(get) T a ks
  | GetMapNumber T a n => env.(getMapNumber) T a n
  | GetMapString T a n => env.(getMapString) T a n
  | GetDateKeyModified a ks => env.(getDateKeyModified) a ks
  | GetDateKeyFirstSet a ks => env.(getDateKeyFirstSet) a ks
  | GetDateKeyFirstSetWithValueMatch a ks w => env.(getDateKeyFirstSetWithValueMatch) a ks w
  | GetTransformationMatch T a n => env.(getTransformationMatch) T a n
  | GetTransformationMatches T a n w l => env.(getTransformationMatches) T a n w l
  | GetTransformationMap T a n => env.(getTransformationMap) T a n
  | GetDateFirstTransformed a n w => env.(getDateFirstTransformed) a n w
  end.

(** ** Functions imported from [./status] and [../../../utils]

    Their code is outside the sources; they are synchronous functions of the
    environment and the proposal, taken as parameters. *)
Class Imports := {
  isPassed : ContractEnv -> SingleChoiceProposal -> bool;
  isRejected : ContractEnv -> SingleChoiceProposal -> bool;
  expirationPlusDuration : Expiration -> Duration -> Expiration;
  isExpirationExpired : ContractEnv -> Expiration -> bool;
}.

Context `{Helpers : Imports}.

(** ** Asynchronous computations *)

(** How a computation ends: it returns a value or throws an [Error]. *)
Inductive outcome (A : Type) :=
| Returned (a : A)
| Thrown (message : string).
#[global] Arguments Returned {A} a.
#[global] Arguments Thrown {A} message.

(** A task: an [async] function body without [Promise.all].  It returns,
    throws, or awaits an accessor and goes on with the answer. *)
Inductive task (A : Type) : Type :=
| TRet (a : A)
| TThrow (message : string)
| TAwait {X : Type} (q : query X) (k : X -> task A).
#[global] Arguments TRet {A} a.
#[global] Arguments TThrow {A} message.
#[global] Arguments TAwait {A X} q k.

Fixpoint task_bind {A B} (f : A -> task B) (t : task A) : task B :=
  match t with
  | TRet a => f a
  | TThrow m => TThrow m
  | TAwait q k => TAwait q (fun x => task_bind f (k x))
  end.

(** A program: an [async] function body that may also await
    [Promise.all(tasks)]. *)
Inductive prog (A : Type) : Type :=
| Ret (a : A)
| Throw (message : string)
| Seq {X : Type} (t : task X) (k : X -> prog A)
| All {X : Type} (ts : list (task X)) (k : list X -> prog A).
#[global] Arguments Ret {A} a.
#[global] Arguments Throw {A} message.
#[global] Arguments Seq {A X} t k.
#[global] Arguments All {A X} ts k.

Fixpoint prog_bind {A B} (f : A -> prog B) (p : prog A) : prog B :=
  match p with
  | Ret a => f a
  | Throw m => Throw m
  | Seq t k => Seq t (fun x => prog_bind f (k x))
  | All ts k => All ts (fun xs => prog_bind f (k xs))
  end.

#[local] Instance task_ret : MRet task := @TRet.
#[local] Instance task_mbind : MBind task := @task_bind.
#[local] Instance prog_ret : MRet prog := @Ret.
#[local] Instance prog_mbind : MBind prog := @prog_bind.

(** [await q] and [throw new Error(message)], in either monad. *)
Class Awaits (M : Type -> Type) := await : forall {X}, query X -> M X.
Class Throws (M : Type -> Type) := throw : forall {A}, string -> M A.
#[local] Instance task_await : Awaits task := fun X q => TAwait q TRet.
#[local] Instance task_throw : Throws task := @TThrow.
#[local] Instance prog_await : Awaits prog := fun X q => Seq (TAwait q TRet) Ret.
#[local] Instance prog_throw : Throws prog := @Throw.

(** [await f.compute(...)] of a formula that is a task, inside a program. *)
Definition call {A} (t : task A) : prog A := Seq t Ret.

(** [await Promise.all(tasks)] *)
Definition Promise_all {X} (ts : list (task X)) : prog (list X) := All ts Ret.

(** [(await a) ?? (await b)]: [b] is only evaluated when [a] is absent. *)
Definition nullish {A} (a b : task (option A)) : task (option A) :=
  x ← a; match x with Some _ => mret x | None => b end.

Infix "??" := nullish (at level 65, right associativity).

(** ** Running a computation against an environment *)

(** An accessor call, as recorded in a trace. *)
Inductive event :=
| Called {X : Type} (q : query X).

Fixpoint runT {A} (env : ContractEnv) (t : task A) : outcome A * list event :=
  match t with
  | TRet a => (Returned a, [])
  | TThrow m => (Thrown m, [])
  | TAwait q k => let '(r, tr) := runT env (k (answer env q)) in (r, Called q :: tr)
  end.

(** The tasks of a pool, each run to its end, in the order of the array.  The
    pool returns the tasks' values in that order; it throws what the first
    throwing task threw. *)
Fixpoint runPool {X} (env : ContractEnv) (ts : list (task X)) : outcome (list X) * list event :=
  match ts with
  | [] => (Returned [], [])
  | t :: ts =>
      let '(r, tr) := runT env t in
      let '(rs, trs) := runPool env ts in
      (match r, rs with
       | Returned x, Returned xs => Returned (x :: xs)
       | Thrown m, _ => Thrown m
       | _, Thrown m => Thrown m
       end, tr ++ trs)
  end.

Fixpoint run {A} (env : ContractEnv) (p : prog A) : outcome A * list event :=
  match p with
  | Ret a => (Returned a, [])
  | Throw m => (Thrown m, [])
  | Seq t k =>
      match runT env t with
      | (Returned x, tr) => let '(r, tr') := run env (k x) in (r, tr ++ tr')
      | (Thrown m, tr) => (Thrown m, tr)
      end
  | All ts k =>
      match runPool env ts with
      | (Returned xs, tr) => let '(r, tr') := run env (k xs) in (r, tr ++ tr')
      | (Thrown m, tr) => (Thrown m, tr)
      end
  end.

(** The outcome of a run, and the calls it made. *)
Definition evalT {A} (env : ContractEnv) (t : task A) : outcome A := (runT env t).1.
Definition traceT {A} (env : ContractEnv) (t : task A) : list event := (runT env t).2.
Definition eval {A} (env : ContractEnv) (p : prog A) : outcome A := (run env p).1.

(** [array.sort(compareFn)]: [a] stays before [b] when [compareFn(a, b) <= 0]. *)
Definition before {A} (compareFn : A -> A -> Z) (a b : A) : Prop := compareFn a b <= 0.

#[global] Instance before_dec {A} (compareFn : A -> A -> Z) : RelDecision (before compareFn).
Proof. intros a b. unfold before. apply _. Defined.

Definition sort {A} (compareFn : A -> A -> Z) : list A -> list A :=
  merge_sort (before compareFn).

(** [Object.keys(map)].  For a map keyed by ids, [keys] also stands for
    [Object.keys(map).map(Number)]: the keys read back as the ids. *)
Definition keys {K V} `{Countable K} (m : gmap K V) : list K := (map_to_list m).*1.

(** Whether an optional value is there ([!!x] for an object [x]). *)
Definition defined {A} (x : option A) : bool :=
  match x with Some _ => true | None => false end.

(** [array[index]] of an array of optional values: [undefined] out of range. *)
Definition item {A} (array : list (option A)) (index : nat) : option A :=
  match array !! index with
  | Some x => x
  | None => None
  end.

(** [array?.[index]] *)
Definition item_opt {A} (array : option (list (option A))) (index : nat) : option A :=
  match array with
  | Some array => item array index
  | None => None
  end.

(** Optional chaining [x?.f] (and [x?.f()]): absent when [x] is. *)
Notation "x ?> f" := (fmap (M:=option) f x) (at level 50, left associativity).

(** ** The formulas *)

(** [config] *)
Definition config (env : ContractEnv) : task (option Config) :=
  await (Get KConfig env.(contractAddress) [KeyS "config_v2"])
  ?? await (Get KConfig env.(contractAddress) [KeyS "config"]).

(** [dao] *)
Definition dao (env : ContractEnv) : task (option string) :=
  c ← config env; mret (c ?> dao_).

(** The guard of the id arguments:
    [!id || isNaN(Number(id)) || Number(id) < 0]. *)
Definition invalidId (id : arg) : bool :=
  negb (truthy id) || isNaN (NumberArg id) || lt (NumberArg id) (Num 0).

(** [proposalCreatedAt] (lines 397-418) *)
Definition proposalCreatedAt (env : ContractEnv) (id : arg) : task (option string) :=
  if invalidId id then throw "missing `id`" else
  d ← (await (GetDateFirstTransformed env.(contractAddress) ("proposal:" +:+ text id) None)
       ?? await (GetDateKeyFirstSet env.(contractAddress) [KeyS "proposals_v2"; KeyN (NumberArg id)])
       ?? await (GetDateKeyFirstSet env.(contractAddress) [KeyS "proposals"; KeyN (NumberArg id)]));
  mret (d ?> toISOString).

(** The status update at the head of [intoResponse] (lines 474-508). *)
Definition updateStatus (env : ContractEnv) (proposal : SingleChoiceProposal) : SingleChoiceProposal :=
  if status_is proposal.(status) StatusEnum.Open then
    if isPassed env proposal then
      match proposal.(veto) with
      | Some veto =>
          let expiration :=
            expirationPlusDuration proposal.(expiration) veto.(timelock_duration) in
          if isExpirationExpired env expiration
          then set_status proposal StatusEnum.Passed
          else set_status proposal (veto_timelock expiration)
      | None => set_status proposal StatusEnum.Passed
      end
    else if isExpirationExpired env proposal.(expiration) || isRejected env proposal
    then set_status proposal StatusEnum.Rejected
    else proposal
  else
    match proposal.(status) with
    | veto_timelock expiration =>
        if isExpirationExpired env expiration
        then set_status proposal StatusEnum.Passed
        else proposal
    | _ => proposal
    end.

(** The raw path of a proposal in the schema that was matched:
    [[v2 ? 'proposals_v2' : 'proposals', id]]. *)
Definition rawPath (v2 : bool) (id : number) : list key :=
  [KeyS (if v2 then "proposals_v2" else "proposals"); KeyN id].

(** The earliest fact of proposal [id] whose status satisfies [where_]: the
    transformation first, the matched raw schema otherwise. *)
Definition statusDate (env : ContractEnv) (id : number) (v2 : bool) (where_ : valueFilter) : task (option string) :=
  d ← (await (GetDateFirstTransformed env.(contractAddress) ("proposal:" +:+ toString id) (Some where_))
       ?? await (GetDateKeyFirstSetWithValueMatch env.(contractAddress) (rawPath v2 id) where_));
  mret (d ?> toISOString).

(** [intoResponse] (lines 468-604) *)
Definition intoResponse (env : ContractEnv) (proposal : SingleChoiceProposal) (id : number) (v2 : bool) : task ProposalResponse :=
  let proposal := updateStatus env proposal in
  createdAt ← proposalCreatedAt env (Some (toString id));
  executedAt ←
    (if status_is proposal.(status) StatusEnum.Executed
        || status_is proposal.(status) StatusEnum.ExecutionFailed
     then statusDate env id v2 (status_in ["executed"; "execution_failed"])
     else mret None);
  closedAt ←
    (if status_is proposal.(status) StatusEnum.Closed
     then statusDate env id v2 (status_eq "closed")
     else mret None);
  completedAt ←
    (if negb (status_is proposal.(status) StatusEnum.Open)
     then
       if truthy executedAt then mret executedAt
       else if truthy closedAt then mret closedAt
       else statusDate env id v2 (status_in ["passed"; "rejected"])
     else mret None);
  mret {| res_id := id; res_proposal := proposal; createdAt := createdAt;
          completedAt := completedAt; executedAt := executedAt; closedAt := closedAt |}.

(** [intoResponse(env, proposals![id], id, { v2 })]: reading [status] of a
    missing entry is a [TypeError]. *)
Definition intoResponseOf (env : ContractEnv) (proposal : option SingleChoiceProposal) (id : number) (v2 : bool) : task ProposalResponse :=
  match proposal with
  | Some proposal => intoResponse env proposal id v2
  | None => throw "TypeError: Cannot read properties of undefined (reading 'status')"
  end.

(** [proposal] (lines 23-73); [dynamic: true]. *)
Definition proposal (env : ContractEnv) (id : arg) : task (option ProposalResponse) :=
  if invalidId id then throw "missing `id`" else
  let idNum := NumberArg id in
  m ← await (GetTransformationMatch KProposal env.(contractAddress) ("proposal:" +:+ text id));
  match m ?> value with
  | Some proposal => r ← intoResponse env proposal idNum false; mret (Some r)
  | None =>
      proposalV2 ← await (Get KProposal env.(contractAddress) [KeyS "proposals_v2"; KeyN idNum]);
      match proposalV2 with
      | Some proposal => r ← intoResponse env proposal idNum true; mret (Some r)
      | None =>
          proposalV1 ← await (Get KProposal env.(contractAddress) [KeyS "proposals"; KeyN idNum]);
          match proposalV1 with
          | Some proposal => r ← intoResponse env proposal idNum false; mret (Some r)
          | None => mret None
          end
      end
  end.

(** [limit ? Math.max(0, Number(limit)) : Infinity] *)
Definition limitNum (limit : arg) : number :=
  if truthy limit then Math.max (Num 0) (NumberArg limit) else Infinity.

(** [startAfter ? Math.max(0, Number(startAfter)) : -Infinity] *)
Definition startAfterNum (startAfter : arg) : number :=
  if truthy startAfter then Math.max (Num 0) (NumberArg startAfter) else NegInfinity.

(** [startBefore ? Math.max(0, Number(startBefore)) : Infinity] *)
Definition startBeforeNum (startBefore : arg) : number :=
  if truthy startBefore then Math.max (Num 0) (NumberArg startBefore) else Infinity.

(** The page of [listProposals] (lines 130-135):
    [Object.keys(proposals).map(Number).sort((a, b) => a - b)
       .filter((id) => id > startAfterNum).slice(0, limitNum)]. *)
Definition ascendingIds (proposals : gmap Z SingleChoiceProposal) (limit startAfter : arg) : list Z :=
  slice0
    (List.filter (fun id => gt (Num id) (startAfterNum startAfter))
       (sort (fun a b => a - b) (keys proposals)))
    (limitNum limit).

(** The page of [reverseProposals] (lines 206-211):
    [Object.keys(proposals).map(Number).sort((a, b) => b - a)
       .filter((id) => id < startBeforeNum).slice(0, limitNum)]. *)
Definition descendingIds (proposals : gmap Z SingleChoiceProposal) (limit startBefore : arg) : list Z :=
  slice0
    (List.filter (fun id => lt (Num id) (startBeforeNum startBefore))
       (sort (fun a b => b - a) (keys proposals)))
    (limitNum limit).

(** The status filter of [listProposals] (lines 141-147). *)
Definition keptBy (filter : arg) (r : ProposalResponse) : bool :=
  if bool_decide (filter = Some "passed")
  then status_is r.(res_proposal).(status) StatusEnum.Passed
       || status_is r.(res_proposal).(status) StatusEnum.Executed
       || status_is r.(res_proposal).(status) StatusEnum.ExecutionFailed
  else true.

(** [listProposals] (lines 75-151); [dynamic: true]. *)
Definition listProposals (env : ContractEnv) (limit startAfter filter : arg) : prog (list ProposalResponse) :=
  proposals ← await (GetTransformationMap KProposal env.(contractAddress) "proposal");
  '(proposals, v2) ←
    match proposals with
    | Some _ => mret (proposals, false)
    | None =>
        proposalsV2 ← await (GetMapNumber KProposal env.(contractAddress) [KeyS "proposals_v2"]);
        match proposalsV2 with
        | Some _ => mret (proposalsV2, true)
        | None =>
            proposalsV1 ← await (GetMapNumber KProposal env.(contractAddress) [KeyS "proposals"]);
            mret (proposalsV1, false)
        end
    end;
  match proposals with
  | None => mret []
  | Some proposals =>
      let proposalIds := ascendingIds proposals limit startAfter in
      responses ← Promise_all
        (map (fun id => intoResponseOf env (proposals !! id) (Num id) v2) proposalIds);
      mret (List.filter (keptBy filter) responses)
  end.

(** [reverseProposals] (lines 153-219); [dynamic: true]. *)
Definition reverseProposals (env : ContractEnv) (limit startBefore : arg) : prog (list ProposalResponse) :=
  proposals ← await (GetTransformationMap KProposal env.(contractAddress) "proposal");
  '(proposals, v2) ←
    match proposals with
    | Some _ => mret (proposals, false)
    | None =>
        proposalsV2 ← await (GetMapNumber KProposal env.(contractAddress) [KeyS "proposals_v2"]);
        match proposalsV2 with
        | Some _ => mret (proposalsV2, true)
        | None =>
            proposalsV1 ← await (GetMapNumber KProposal env.(contractAddress) [KeyS "proposals"]);
            mret (proposalsV1, false)
        end
    end;
  match proposals with
  | None => mret []
  | Some proposals =>
      let proposalIds := descendingIds proposals limit startBefore in
      Promise_all
        (map (fun id => intoResponseOf env (proposals !! id) (Num id) v2) proposalIds)
  end.

(** [proposalCount] *)
Definition proposalCount (env : ContractEnv) : task number :=
  n ← await (Get KNumber env.(contractAddress) [KeyS "proposal_count"]);
  mret (default (Num 0) n).

(** [nextProposalId] *)
Definition nextProposalId (env : ContractEnv) : task number :=
  n ← proposalCount env; mret (add n (Num 1)).

(** The raw path of a ballot: [['ballots', Number(proposalId), voter]]. *)
Definition ballotPath (proposalId : arg) (voter : string) : list key :=
  [KeyS "ballots"; KeyN (NumberArg proposalId); KeyS voter].

(** [{ voter, ...vote, votedAt }] *)
Definition voteInfo (voter : string) (voteCast : VoteCast) : VoteInfo :=
  {| vi_voter := voter; vi_ballot := voteCast.(vc_vote); vi_votedAt := voteCast.(vc_votedAt) |}.

(** [vote] (lines 231-291) *)
Definition vote (env : ContractEnv) (proposalId voter : arg) : task (option VoteInfo) :=
  if negb (truthy proposalId) then throw "missing `proposalId`" else
  if negb (truthy voter) then throw "missing `voter`" else
  m ← await (GetTransformationMatch KVoteCast env.(contractAddress)
               ("voteCast:" +:+ text voter +:+ ":" +:+ text proposalId));
  voteCast ←
    match m ?> value with
    | Some voteCast => mret (Some voteCast)
    | None =>
        ballot ← await (Get KBallot env.(contractAddress) (ballotPath proposalId (text voter)));
        match ballot with
        | Some ballot =>
            votedAt ← await (GetDateKeyModified env.(contractAddress) (ballotPath proposalId (text voter)));
            mret (Some {| vc_voter := text voter; vc_vote := Some ballot;
                          vc_votedAt := votedAt ?> toISOString |})
        | None => mret None
        end
    end;
  mret (voteCast ?> voteInfo (text voter)).

(** The voters of the raw-event page of [listVotes] (lines 336-340). *)
Definition pageVoters (ballots : gmap string Ballot) (limit startAfter : arg) : list string :=
  slice0
    (List.filter
       (fun voter => negb (truthy startAfter) || (0 <? localeCompare voter (text startAfter)))
       (sort localeCompare (keys ballots)))
    (limitNum limit).

(** [listVotes] (lines 293-371) *)
Definition listVotes (env : ContractEnv) (proposalId limit startAfter : arg) : prog (list VoteInfo) :=
  if invalidId proposalId then throw "missing `proposalId`" else
  matches ← await (GetTransformationMatches KVoteCast env.(contractAddress)
                     ("voteCast:*:" +:+ text proposalId)
                     (if truthy startAfter
                      then Some (Op_gt ("voteCast:" +:+ text startAfter +:+ ":" +:+ text proposalId))
                      else None)
                     (if truthy limit then Some (limitNum limit) else None));
  votesCast ←
    match matches ?> map value with
    | Some votesCast => mret votesCast
    | None =>
        ballots ← await (GetMapString KBallot env.(contractAddress)
                           [KeyS "ballots"; KeyN (NumberArg proposalId)]);
        let ballots := default ∅ ballots in
        let voters := pageVoters ballots limit startAfter in
        votesCastAt ←
          (if le (length_ voters) (Num 50)
           then
             dates ← Promise_all
               (map (fun voter => await (GetDateKeyModified env.(contractAddress)
                                           (ballotPath proposalId voter))) voters);
             mret (Some dates)
           else mret None);
        mret (imap (fun index voter =>
                      {| vc_voter := voter; vc_vote := ballots !! voter;
                         vc_votedAt := item_opt votesCastAt index ?> toISOString |})
                voters)
    end;
  mret (map (fun voteCast => voteInfo voteCast.(vc_voter) voteCast) votesCast).

(** [voteCount] (lines 373-395) *)
Definition voteCount (env : ContractEnv) (proposalId : arg) : task (option number) :=
  if invalidId proposalId then throw "missing `proposalId`" else
  m ← await (GetTransformationMatch KNumber env.(contractAddress) ("voteCount:" +:+ text proposalId));
  mret (m ?> value).

(** [openProposals] (lines 420-463); [dynamic: true].  Each open proposal comes
    with the [voted] flag, absent when no address is given. *)
Definition openProposals (env : ContractEnv) (address : arg) : prog (list (ProposalResponse * option bool)) :=
  proposals ← listProposals env None None None;
  let openProposals :=
    List.filter (fun r => status_is r.(res_proposal).(status) StatusEnum.Open) proposals in
  openProposalVotes ←
    (if truthy address
     then
       votes ← Promise_all
         (map (fun r => vote env (Some (toString r.(res_id))) address) openProposals);
       mret (Some votes)
     else mret None);
  mret match (if truthy address then openProposalVotes else None) with
       | Some votes =>
           imap (fun index proposal => (proposal, Some (defined (item votes index))))
             openProposals
       | None => map (fun proposal => (proposal, None)) openProposals
       end.

(** ** What the accessors give, as values *)

(** The first value that is present, in the order of the list. *)
Fixpoint firstPresent {A} (l : list (option A)) : option A :=
  match l with
  | [] => None
  | Some a :: _ => Some a
  | None :: l => firstPresent l
  end.

(** The timestamp [statusDate] resolves to. *)
Definition statusDateOf (env : ContractEnv) (id : number) (v2 : bool) (where_ : valueFilter) : option string :=
  firstPresent
    [env.(getDateFirstTransformed) env.(contractAddress) ("proposal:" +:+ toString id) (Some where_);
     env.(getDateKeyFirstSetWithValueMatch) env.(contractAddress) (rawPath v2 id) where_]
  ?> toISOString.

(** The timestamp [proposalCreatedAt] resolves to for a valid id. *)
Definition createdAtOf (env : ContractEnv) (id : arg) : option string :=
  firstPresent
    [env.(getDateFirstTransformed) env.(contractAddress) ("proposal:" +:+ text id) None;
     env.(getDateKeyFirstSet) env.(contractAddress) [KeyS "proposals_v2"; KeyN (NumberArg id)];
     env.(getDateKeyFirstSet) env.(contractAddress) [KeyS "proposals"; KeyN (NumberArg id)]]
  ?> toISOString.

(** A number that passes the id guard once printed: not [NaN], not negative. *)
Definition validIdNum (id : number) : bool := negb (isNaN id) && negb (lt id (Num 0)).

(** The response [intoResponse] returns for a valid id. *)
Definition responseOf (env : ContractEnv) (proposal : SingleChoiceProposal) (id : number) (v2 : bool) : ProposalResponse :=
  let proposal := updateStatus env proposal in
  let executedAt :=
    if status_is proposal.(status) StatusEnum.Executed
       || status_is proposal.(status) StatusEnum.ExecutionFailed
    then statusDateOf env id v2 (status_in ["executed"; "execution_failed"])
    else None in
  let closedAt :=
    if status_is proposal.(status) StatusEnum.Closed
    then statusDateOf env id v2 (status_eq "closed")
    else None in
  let completedAt :=
    if negb (status_is proposal.(status) StatusEnum.Open)
    then or_ executedAt (or_ closedAt (statusDateOf env id v2 (status_in ["passed"; "rejected"])))
    else None in
  {| res_id := id; res_proposal := proposal;
     createdAt := createdAtOf env (Some (toString id));
     completedAt := completedAt; executedAt := executedAt; closedAt := closedAt |}.

(** ** Ordered fallback between the transformation index and the raw schemas *)

(** A source of a record: the accessor call that consults it, what it yields,
    and whether it is the raw v2 schema. *)
Definition source (A : Type) : Type := event * option A * bool.

(** The sources are consulted in order, each only when every earlier one
    yielded nothing; the first that yields a record wins, and its schema flag
    is kept with the record.  The calls made are returned as well. *)
Fixpoint orderedFallback {A} (sources : list (source A)) : option (A * bool) * list event :=
  match sources with
  | [] => (None, [])
  | (e, Some a, v2) :: _ => (Some (a, v2), [e])
  | (e, None, _) :: sources => let '(r, tr) := orderedFallback sources in (r, e :: tr)
  end.

(** Where [proposal] looks for the record of [id]. *)
Definition proposalSources (env : ContractEnv) (id : arg) : list (source SingleChoiceProposal) :=
  [(Called (GetTransformationMatch KProposal env.(contractAddress) ("proposal:" +:+ text id)),
    env.(getTransformationMatch) KProposal env.(contractAddress) ("proposal:" +:+ text id) ?> value,
    false);
   (Called (Get KProposal env.(contractAddress) [KeyS "proposals_v2"; KeyN (NumberArg id)]),
    env.(get) KProposal env.(contractAddress) [KeyS "proposals_v2"; KeyN (NumberArg id)],
    true);
   (Called (Get KProposal env.(contractAddress) [KeyS "proposals"; KeyN (NumberArg id)]),
    env.(get) KProposal env.(contractAddress) [KeyS "proposals"; KeyN (NumberArg id)],
    false)].

(** Where [listProposals] and [reverseProposals] look for the proposals. *)
Definition proposalsSources (env : ContractEnv) : list (source (gmap Z SingleChoiceProposal)) :=
  [(Called (GetTransformationMap KProposal env.(contractAddress) "proposal"),
    env.(getTransformationMap) KProposal env.(contractAddress) "proposal",
    false);
   (Called (GetMapNumber KProposal env.(contractAddress) [KeyS "proposals_v2"]),
    env.(getMapNumber) KProposal env.(contractAddress) [KeyS "proposals_v2"],
    true);
   (Called (GetMapNumber KProposal env.(contractAddress) [KeyS "proposals"]),
    env.(getMapNumber) KProposal env.(contractAddress) [KeyS "proposals"],
    false)].

Definition outcome_map {A B} (f : A -> B) (o : outcome A) : outcome B :=
  match o with
  | Returned a => Returned (f a)
  | Thrown m => Thrown m
  end.

(** A raw status-timestamp lookup ([getDateKeyFirstSetWithValueMatch]) reads
    the path [keys]; any other call passes. *)
Definition rawStatusLookupAt (keys : list key) (e : event) : Prop :=
  match e with
  | Called q =>
      match q with
      | GetDateKeyFirstSetWithValueMatch _ keys' _ => keys' = keys
      | _ => True
      end
  end.

(** ** Pages of proposal ids *)

(** What a cursor or limit argument reads as: absent ([undefined] or the empty
    string), or an integer. *)
Definition reads_as (a : arg) (v : option Z) : Prop :=
  match v with
  | None => truthy a = false
  | Some z => truthy a = true /\ NumberArg a = Num z
  end.

(** A negative cursor comes with positive ids only.  (The formulas read a
    negative cursor as 0; ids are handed out from [nextProposalId], which
    starts at 1.) *)
Definition cursor_fits (ids : gset Z) (cursor : option Z) : Prop :=
  match cursor with
  | Some c => c < 0 -> set_Forall (fun id => 0 < id) ids
  | None => True
  end.

(** Truncation to a limit; unbounded when the limit is absent, and empty when
    the limit is not positive. *)
Definition cut {A} (limit : option Z) (l : list A) : list A :=
  match limit with
  | Some n => take (Z.to_nat n) l
  | None => l
  end.

(** [page] is the ascending page of [ids]: exactly the ids strictly greater
    than the cursor, in ascending order, truncated to the limit. *)
Definition ascending_page (ids : gset Z) (cursor limit : option Z) (page : list Z) : Prop :=
  exists all,
    StronglySorted Z.lt all /\
    (forall id, id ∈ all <-> id ∈ ids /\ from_option (fun c => c < id) True cursor) /\
    page = cut limit all.

(** [page] is the descending page of [ids]: exactly the ids strictly less than
    the cursor, in descending order, truncated to the limit. *)
Definition descending_page (ids : gset Z) (cursor limit : option Z) (page : list Z) : Prop :=
  exists all,
    StronglySorted Z.gt all /\
    (forall id, id ∈ all <-> id ∈ ids /\ from_option (fun c => id < c) True cursor) /\
    page = cut limit all.

(** A status the filter ['passed'] is to keep: passed, executed, or failed in
    execution. *)
Definition keptByPassed (s : Status) : bool :=
  match s with
  | Enum StatusEnum.Passed | Enum StatusEnum.Executed | Enum StatusEnum.ExecutionFailed => true
  | _ => false
  end.

(** ** Pools *)

(** The outcome of a pool under [runPool]. *)
Definition evalPool {X} (env : ContractEnv) (ts : list (task X)) : outcome (list X) :=
  (runPool env ts).1.

(** ** The votes of a raw-event page *)

(** The votes of the raw-event page: every voter of the page with its ballot,
    and with the date its ballot was last modified when [dated]. *)
Definition rawVotes (env : ContractEnv) (proposalId : arg) (ballots : gmap string Ballot) (dated : bool) (voters : list string) : list VoteInfo :=
  map (fun voter =>
         {| vi_voter := voter; vi_ballot := ballots !! voter;
            vi_votedAt :=
              (if dated
               then env.(getDateKeyModified) env.(contractAddress) (ballotPath proposalId voter)
               else None) ?> toISOString |})
    voters.

(** ** Concurrent evaluation

    [run] evaluates the tasks of a pool one after the other.  The runtime is
    free to interleave them: whenever several tasks of a pool wait for an
    accessor, any of them may be the next to get its answer.  [exec] is the
    evaluation under every such schedule. *)

(** A task that waits for an accessor receives the answer and goes on. *)
Inductive task_step (env : ContractEnv) {A} : task A -> task A -> Prop :=
| task_step_answer {X} (q : query X) (k : X -> task A) :
    task_step env (TAwait q k) (k (answer env q)).

(** One step of a pool: one of its tasks makes a step, the others stay. *)
Inductive pool_step (env : ContractEnv) {A} : list (task A) -> list (task A) -> Prop :=
| pool_step_at (ts : list (task A)) (i : nat) (t t' : task A) :
    ts !! i = Some t ->
    task_step env t t' ->
    pool_step env ts (<[i := t']> ts).

(** [exec env p r]: some schedule of [p] ends in [r].  [Promise.all] is
    fulfilled with the values of its tasks, in the order of the array, once
    all of them have returned; it is rejected with the error of a task that
    has thrown. *)
Inductive exec (env : ContractEnv) {A} : prog A -> outcome A -> Prop :=
| exec_Ret (a : A) : exec env (Ret a) (Returned a)
| exec_Throw (m : string) : exec env (Throw m) (Thrown m)
| exec_Seq_returned {X} (t : task X) (k : X -> prog A) (x : X) (r : outcome A) :
    rtc (task_step env) t (TRet x) ->
    exec env (k x) r ->
    exec env (Seq t k) r
| exec_Seq_thrown {X} (t : task X) (k : X -> prog A) (m : string) :
    rtc (task_step env) t (TThrow m) ->
    exec env (Seq t k) (Thrown m)
| exec_All_fulfilled {X} (ts : list (task X)) (k : list X -> prog A) (xs : list X) (r : outcome A) :
    rtc (pool_step env) ts (map TRet xs) ->
    exec env (k xs) r ->
    exec env (All ts k) r
| exec_All_rejected {X} (ts ts' : list (task X)) (k : list X -> prog A) (i : nat) (m : string) :
    rtc (pool_step env) ts ts' ->
    ts' !! i = Some (TThrow m) ->
    exec env (All ts k) (Thrown m).

(** The task a task ends as. *)
Definition settled {A} (env : ContractEnv) (t : task A) : task A :=
  match evalT env t with
  | Returned a => TRet a
  | Thrown m => TThrow m
  end.

(** The pools of [p] that are reached agree on what they throw: two tasks of
    one pool that throw, throw the same error. *)
Fixpoint unanimous {A} (env : ContractEnv) (p : prog A) : Prop :=
  match p with
  | Ret _ | Throw _ => True
  | Seq t k => forall x, evalT env t = Returned x -> unanimous env (k x)
  | All ts k =>
      (forall t1 t2 m1 m2,
         t1 ∈ ts -> t2 ∈ ts ->
         evalT env t1 = Thrown m1 -> evalT env t2 = Thrown m2 -> m1 = m2) /\
      (forall xs, evalPool env ts = Returned xs -> unanimous env (k xs))
  end.

(** A program is deterministic when it has an outcome and every two of its
    schedules end in the same outcome. *)
Definition deterministic {A} (env : ContractEnv) (p : prog A) : Prop :=
  (exists r, exec env p r) /\
  (forall r1 r2, exec env p r1 -> exec env p r2 -> r1 = r2).

(** The proposals the listing formulas find, none when no source has any. *)
Definition foundProposals (env : ContractEnv) : gmap Z SingleChoiceProposal :=
  match (orderedFallback (proposalsSources env)).1 with
  | Some (proposals, _) => proposals
  | None => ∅
  end.

(** A task that returns: it does not throw. *)
Definition returns {A} (env : ContractEnv) (t : task A) : Prop :=
  exists a, evalT env t = Returned a.

(** ** What [proposalCreatedAt] and [vote] resolve to *)

(** Where [proposalCreatedAt] looks for the date proposal [id] was created;
    both raw schemas are tried, whichever holds the record. *)
Definition createdAtSources (env : ContractEnv) (id : arg) : list (source Date) :=
  [(Called (GetDateFirstTransformed env.(contractAddress) ("proposal:" +:+ text id) None),
    env.(getDateFirstTransformed) env.(contractAddress) ("proposal:" +:+ text id) None,
    false);
   (Called (GetDateKeyFirstSet env.(contractAddress) [KeyS "proposals_v2"; KeyN (NumberArg id)]),
    env.(getDateKeyFirstSet) env.(contractAddress) [KeyS "proposals_v2"; KeyN (NumberArg id)],
    true);
   (Called (GetDateKeyFirstSet env.(contractAddress) [KeyS "proposals"; KeyN (NumberArg id)]),
    env.(getDateKeyFirstSet) env.(contractAddress) [KeyS "proposals"; KeyN (NumberArg id)],
    false)].

(** The vote [vote] resolves to: the vote the transformation index has for
    the voter, or else the ballot of the raw store with the date it was last
    modified, or else nothing. *)
Definition voteOf (env : ContractEnv) (proposalId voter : arg) : option VoteInfo :=
  match env.(getTransformationMatch) KVoteCast env.(contractAddress)
          ("voteCast:" +:+ text voter +:+ ":" +:+ text proposalId) with
  | Some m => Some (voteInfo (text voter) m.(value))
  | None =>
      match env.(get) KBallot env.(contractAddress) (ballotPath proposalId (text voter)) with
      | Some ballot =>
          Some {| vi_voter := text voter; vi_ballot := Some ballot;
                  vi_votedAt :=
                    env.(getDateKeyModified) env.(contractAddress)
                      (ballotPath proposalId (text voter)) ?> toISOString |}
      | None => None
      end
  end.

(** The calls [vote] makes: the raw ballot is read only when the index has no
    vote, and its date only when there is a ballot. *)
Definition voteCalls (env : ContractEnv) (proposalId voter : arg) : list event :=
  Called (GetTransformationMatch KVoteCast env.(contractAddress)
            ("voteCast:" +:+ text voter +:+ ":" +:+ text proposalId))
  :: match env.(getTransformationMatch) KVoteCast env.(contractAddress)
             ("voteCast:" +:+ text voter +:+ ":" +:+ text proposalId) with
     | Some _ => []
     | None =>
         Called (Get KBallot env.(contractAddress) (ballotPath proposalId (text voter)))
         :: match env.(get) KBallot env.(contractAddress) (ballotPath proposalId (text voter)) with
            | Some _ =>
                [Called (GetDateKeyModified env.(contractAddress)
                           (ballotPath proposalId (text voter)))]
            | None => []
            end
     end.

(** ** The calls of a response *)

(** A call that asks for a date. *)
Definition dateLookup (e : event) : Prop :=
  match e with
  | Called q =>
      match q with
      | GetDateFirstTransformed _ _ _
      | GetDateKeyFirstSet _ _
      | GetDateKeyFirstSetWithValueMatch _ _ _ => True
      | _ => False
      end
  end.

(** A task that makes at most [n] accessor calls. *)
Definition calls_le {A} (env : ContractEnv) (n : nat) (t : task A) : Prop :=
  (length (traceT env t) <= n)%nat.

(** * Properties *)

(** ** Running binds *)

Lemma runT_bind {A B} env (t : task A) (f : A -> task B) :
  runT env (t ≫= f) =
  match runT env t with
  | (Returned a, tr) => let '(r, tr') := runT env (f a) in (r, tr ++ tr')
  | (Thrown m, tr) => (Thrown m, tr)
  end.
Proof.
  induction t as [a|m|X q k IH]; cbn.
  - by destruct (runT env (f a)).
  - done.
  - change (task_bind f (k (answer env q))) with (k (answer env q) ≫= f).
    rewrite IH. destruct (runT env (k (answer env q))) as [[a|m] tr]; [|done].
    by destruct (runT env (f a)).
Qed.

Lemma evalT_bind {A B} env (t : task A) (f : A -> task B) :
  evalT env (t ≫= f) =
  match evalT env t with
  | Returned a => evalT env (f a)
  | Thrown m => Thrown m
  end.
Proof.
  unfold evalT. rewrite runT_bind.
  destruct (runT env t) as [[a|m] tr]; cbn; [|done]. by destruct (runT env (f a)).
Qed.

Lemma traceT_bind {A B} env (t : task A) (f : A -> task B) :
  traceT env (t ≫= f) =
  match evalT env t with
  | Returned a => traceT env t ++ traceT env (f a)
  | Thrown _ => traceT env t
  end.
Proof.
  unfold traceT, evalT. rewrite runT_bind.
  destruct (runT env t) as [[a|m] tr]; [|done]. cbn. by destruct (runT env (f a)).
Qed.

Lemma run_bind {A B} env (p : prog A) (f : A -> prog B) :
  run env (p ≫= f) =
  match run env p with
  | (Returned a, tr) => let '(r, tr') := run env (f a) in (r, tr ++ tr')
  | (Thrown m, tr) => (Thrown m, tr)
  end.
Proof.
  induction p as [a|m|X t k IH|X ts k IH]; cbn.
  - by destruct (run env (f a)).
  - done.
  - destruct (runT env t) as [[x|m] tr]; [|done].
    change (prog_bind f (k x)) with (k x ≫= f). rewrite IH.
    destruct (run env (k x)) as [[a|m] tr']; [|done].
    destruct (run env (f a)). by rewrite app_assoc.
  - destruct (runPool env ts) as [[x|m] tr]; [|done].
    change (prog_bind f (k x)) with (k x ≫= f). rewrite IH.
    destruct (run env (k x)) as [[a|m] tr']; [|done].
    destruct (run env (f a)). by rewrite app_assoc.
Qed.

Lemma eval_bind {A B} env (p : prog A) (f : A -> prog B) :
  eval env (p ≫= f) =
  match eval env p with
  | Returned a => eval env (f a)
  | Thrown m => Thrown m
  end.
Proof.
  unfold eval. rewrite run_bind.
  destruct (run env p) as [[a|m] tr]; cbn; [|done]. by destruct (run env (f a)).
Qed.

Lemma runT_await {X} env (q : query X) : runT env (await q) = (Returned (answer env q), [Called q]).
Proof. done. Qed.

Lemma run_await {X} env (q : query X) : run env (await q) = (Returned (answer env q), [Called q]).
Proof. done. Qed.

Lemma runT_nullish {A} env (a b : task (option A)) :
  runT env (a ?? b) =
  match runT env a with
  | (Returned (Some x), tr) => (Returned (Some x), tr)
  | (Returned None, tr) => let '(r, tr') := runT env b in (r, tr ++ tr')
  | (Thrown m, tr) => (Thrown m, tr)
  end.
Proof.
  unfold nullish. rewrite runT_bind.
  destruct (runT env a) as [[[x|]|m] tr]; [|done..]. cbn. by rewrite app_nil_r.
Qed.

(** ** The timestamp lookups *)

Lemma evalT_await {X} env (q : query X) : evalT env (await q) = Returned (answer env q).
Proof. done. Qed.

Lemma evalT_ret {A} env (a : A) : evalT env (mret a) = Returned a.
Proof. done. Qed.

Lemma evalT_nullish {A} env (a b : task (option A)) :
  evalT env (a ?? b) =
  match evalT env a with
  | Returned (Some x) => Returned (Some x)
  | Returned None => evalT env b
  | Thrown m => Thrown m
  end.
Proof.
  unfold evalT. rewrite runT_nullish.
  destruct (runT env a) as [[[x|]|m] tr]; cbn; [done| |done]. by destruct (runT env b).
Qed.

Lemma invalidId_toString id : invalidId (Some (toString id)) = negb (validIdNum id).
Proof.
  unfold validIdNum, invalidId. cbn. rewrite Number_toString.
  pose proof (toString_truthy id) as Hne. apply String.eqb_neq in Hne. rewrite Hne. cbn.
  by destruct (isNaN id), (lt id (Num 0)).
Qed.

Lemma evalT_proposalCreatedAt env id :
  evalT env (proposalCreatedAt env id) =
  if invalidId id then Thrown "missing `id`" else Returned (createdAtOf env id).
Proof.
  unfold proposalCreatedAt, createdAtOf. destruct (invalidId id); [done|].
  rewrite evalT_bind, !evalT_nullish, !evalT_await. cbn.
  destruct (getDateFirstTransformed env _ _ _); [done|].
  destruct (getDateKeyFirstSet env _ [KeyS "proposals_v2"; _]); [done|].
  by destruct (getDateKeyFirstSet env _ _).
Qed.

Lemma evalT_statusDate env id v2 where_ :
  evalT env (statusDate env id v2 where_) = Returned (statusDateOf env id v2 where_).
Proof.
  unfold statusDate, statusDateOf.
  rewrite evalT_bind, !evalT_nullish, !evalT_await. cbn.
  destruct (getDateFirstTransformed env _ _ _); [done|].
  by destruct (getDateKeyFirstSetWithValueMatch env _ _ _).
Qed.

(** ** [intoResponse] *)

Lemma evalT_intoResponse env proposal id v2 :
  evalT env (intoResponse env proposal id v2) =
  if validIdNum id then Returned (responseOf env proposal id v2) else Thrown "missing `id`".
Proof.
  unfold intoResponse, responseOf.
  rewrite evalT_bind, evalT_proposalCreatedAt, invalidId_toString.
  destruct (validIdNum id); [cbn [negb]|done].
  set (p := updateStatus env proposal).
  rewrite evalT_bind.
  destruct (status_is (status p) StatusEnum.Executed || status_is (status p) StatusEnum.ExecutionFailed);
    rewrite ?evalT_statusDate, ?evalT_ret; cbv beta iota;
    rewrite evalT_bind;
    (destruct (status_is (status p) StatusEnum.Closed);
     rewrite ?evalT_statusDate, ?evalT_ret; cbv beta iota);
    rewrite evalT_bind;
    (destruct (status_is (status p) StatusEnum.Open); cbn [negb];
     rewrite ?evalT_ret; [done|]).
  all: unfold or_.
  all: repeat match goal with |- context [truthy ?x] => destruct (truthy x) end.
  all: by rewrite ?evalT_statusDate, ?evalT_ret.
Qed.

(** ** Status derivation *)

Lemma status_is_true st s : status_is st s = true <-> st = Enum s.
Proof.
  destruct st as [s'|e]; cbn; [|done].
  split; [by destruct s', s|]. intros [= ->]. by destruct s.
Qed.

Lemma status_is_false st s : status_is st s = false <-> st <> Enum s.
Proof. rewrite <-status_is_true. by destruct (status_is st s). Qed.

Lemma intoResponse_returns env proposal id v2 :
  validIdNum id = true ->
  evalT env (intoResponse env proposal id v2) = Returned (responseOf env proposal id v2).
Proof. intros Hid. by rewrite evalT_intoResponse, Hid. Qed.

Lemma updateStatus_open env proposal :
  proposal.(status) = Enum StatusEnum.Open ->
  (updateStatus env proposal).(status) =
  if isPassed env proposal then
    match proposal.(veto) with
    | Some veto =>
        let expiration :=
          expirationPlusDuration proposal.(expiration) veto.(timelock_duration) in
        if isExpirationExpired env expiration
        then Enum StatusEnum.Passed else veto_timelock expiration
    | None => Enum StatusEnum.Passed
    end
  else if isExpirationExpired env proposal.(expiration) || isRejected env proposal
  then Enum StatusEnum.Rejected
  else Enum StatusEnum.Open.
Proof.
  intros Hst. unfold updateStatus. rewrite Hst. cbn.
  destruct (isPassed env proposal).
  - destruct (veto proposal) as [v|]; [|done]. cbn. by destruct (isExpirationExpired env _).
  - by destruct (isExpirationExpired env _ || isRejected env _).
Qed.

Lemma updateStatus_veto_timelock env proposal e :
  proposal.(status) = veto_timelock e ->
  (updateStatus env proposal).(status) =
  if isExpirationExpired env e then Enum StatusEnum.Passed else veto_timelock e.
Proof.
  intros Hst. unfold updateStatus. rewrite Hst. cbn.
  by destruct (isExpirationExpired env e).
Qed.

Lemma updateStatus_other env proposal :
  proposal.(status) <> Enum StatusEnum.Open ->
  (forall e, proposal.(status) <> veto_timelock e) ->
  updateStatus env proposal = proposal.
Proof.
  intros Hopen Hveto. unfold updateStatus.
  apply status_is_false in Hopen. rewrite Hopen.
  destruct (status proposal) as [s|e] eqn:Hst; [done|]. by destruct (Hveto e).
Qed.

(** C1: an [Open] proposal whose pass condition holds derives to
    [veto_timelock] with the proposal's expiration plus the timelock duration
    when a veto is configured, unless that expiration has already elapsed, in
    which case, as without a veto, it derives to [Passed]; a stored
    [veto_timelock] derives to [Passed] exactly when its expiration has
    elapsed. *)
Theorem open_passed_status env proposal id v2 :
  validIdNum id = true ->
  (proposal.(status) = Enum StatusEnum.Open ->
   isPassed env proposal = true ->
   exists r,
     evalT env (intoResponse env proposal id v2) = Returned r /\
     r.(res_proposal).(status) =
       match proposal.(veto) with
       | Some veto =>
           let expiration :=
             expirationPlusDuration proposal.(expiration) veto.(timelock_duration) in
           if isExpirationExpired env expiration
           then Enum StatusEnum.Passed
           else veto_timelock expiration
       | None => Enum StatusEnum.Passed
       end) /\
  (forall expiration,
   proposal.(status) = veto_timelock expiration ->
   exists r,
     evalT env (intoResponse env proposal id v2) = Returned r /\
     (r.(res_proposal).(status) = Enum StatusEnum.Passed
      <-> isExpirationExpired env expiration = true)).
Proof.
  intros Hid. split.
  - intros Hopen Hpassed. eexists. split; [by apply intoResponse_returns|].
    cbn. by rewrite updateStatus_open, Hpassed.
  - intros e Hst. eexists. split; [by apply intoResponse_returns|].
    cbn. rewrite (updateStatus_veto_timelock _ _ e) by done.
    by destruct (isExpirationExpired env e).
Qed.

(** C5: an [Open] proposal whose pass condition does not hold derives to
    [Rejected] when its own expiration has elapsed or the reject condition
    holds, and stays [Open] otherwise. *)
Theorem open_not_passed_status env proposal id v2 :
  validIdNum id = true ->
  proposal.(status) = Enum StatusEnum.Open ->
  isPassed env proposal = false ->
  exists r,
    evalT env (intoResponse env proposal id v2) = Returned r /\
    r.(res_proposal).(status) =
      if isExpirationExpired env proposal.(expiration) || isRejected env proposal
      then Enum StatusEnum.Rejected
      else Enum StatusEnum.Open.
Proof.
  intros Hid Hopen Hpassed. eexists. split; [by apply intoResponse_returns|].
  cbn. by rewrite updateStatus_open, Hpassed.
Qed.

(** C8: a stored status other than [Open] and [veto_timelock] is returned
    unchanged, and [Executed], [ExecutionFailed] and [Closed] are never
    derived: a response carries one of them only when it is the stored
    status. *)
Theorem terminal_status_not_derived env proposal id v2 :
  validIdNum id = true ->
  exists r,
    evalT env (intoResponse env proposal id v2) = Returned r /\
    (proposal.(status) <> Enum StatusEnum.Open ->
     (forall e, proposal.(status) <> veto_timelock e) ->
     r.(res_proposal).(status) = proposal.(status)) /\
    (forall s,
     s = StatusEnum.Executed \/ s = StatusEnum.ExecutionFailed \/ s = StatusEnum.Closed ->
     r.(res_proposal).(status) = Enum s ->
     proposal.(status) = Enum s).
Proof.
  intros Hid. eexists. split; [by apply intoResponse_returns|]. cbn. split.
  - intros Hopen Hveto. by rewrite updateStatus_other.
  - intros s Hs. destruct (status proposal) as [s'|e] eqn:Hst.
    + destruct (decide (s' = StatusEnum.Open)) as [->|Hne].
      * rewrite updateStatus_open by done. cbn.
        destruct Hs as [->|[->| ->]]; repeat case_match; done.
      * rewrite updateStatus_other; rewrite Hst; [done|congruence|done].
    + rewrite (updateStatus_veto_timelock _ _ e) by done.
      destruct Hs as [->|[->| ->]]; case_match; done.
Qed.

(** ** Timestamps of a response *)

Lemma truthy_toISOString (d : option Date) : truthy (d ?> toISOString) = defined d.
Proof.
  destruct d as [d|]; [cbn|done].
  pose proof (toISOString_truthy d) as Hne. apply String.eqb_neq in Hne. by rewrite Hne.
Qed.

Lemma or_firstPresent (d : option Date) (b : option string) :
  or_ (d ?> toISOString) b = firstPresent [d ?> toISOString; b].
Proof.
  unfold or_. rewrite truthy_toISOString. destruct d; [done|]. by destruct b.
Qed.

Lemma or_None (b : option string) : or_ None b = firstPresent [None; b].
Proof. by destruct b. Qed.

(** C7: when the derived status is not [Open], [completedAt] is the first
    present value among [executedAt], [closedAt] and the earliest fact whose
    status is ['passed'] or ['rejected'] (the transformation before the matched
    raw schema); when it is [Open], [completedAt], [executedAt] and [closedAt]
    are all absent. *)
Theorem completedAt_preference env proposal id v2 :
  validIdNum id = true ->
  exists r,
    evalT env (intoResponse env proposal id v2) = Returned r /\
    (r.(res_proposal).(status) <> Enum StatusEnum.Open ->
     r.(completedAt) =
       firstPresent
         [r.(executedAt); r.(closedAt);
          firstPresent
            [env.(getDateFirstTransformed) env.(contractAddress)
               ("proposal:" +:+ toString id) (Some (status_in ["passed"; "rejected"]));
             env.(getDateKeyFirstSetWithValueMatch) env.(contractAddress)
               (rawPath v2 id) (status_in ["passed"; "rejected"])]
          ?> toISOString]) /\
    (r.(res_proposal).(status) = Enum StatusEnum.Open ->
     r.(completedAt) = None /\ r.(executedAt) = None /\ r.(closedAt) = None).
Proof.
  intros Hid. eexists. split; [by apply intoResponse_returns|].
  unfold responseOf. cbn [completedAt executedAt closedAt res_proposal].
  set (p := updateStatus env proposal). split.
  - intros Hopen%status_is_false. rewrite Hopen. cbn [negb].
    unfold statusDateOf.
    repeat match goal with
           | |- context [@firstPresent Date ?l] => generalize (@firstPresent Date l); intro
           end.
    destruct (status_is (status p) StatusEnum.Executed || status_is (status p) StatusEnum.ExecutionFailed);
      destruct (status_is (status p) StatusEnum.Closed);
      rewrite ?or_firstPresent, ?or_None; cbn;
      repeat case_match; done.
  - intros Hopen. rewrite Hopen. done.
Qed.

(** ** Ordered fallback *)

Lemma traceT_bind_Forall {A B} (P : event -> Prop) env (t : task A) (f : A -> task B) :
  Forall P (traceT env t) ->
  (forall a, Forall P (traceT env (f a))) ->
  Forall P (traceT env (t ≫= f)).
Proof.
  unfold traceT. intros Ht Hf. rewrite runT_bind.
  destruct (runT env t) as [[a|m] tr]; [|done].
  specialize (Hf a). destruct (runT env (f a)). cbn in *. by apply Forall_app.
Qed.

Lemma traceT_nullish_Forall {A} (P : event -> Prop) env (a b : task (option A)) :
  Forall P (traceT env a) -> Forall P (traceT env b) -> Forall P (traceT env (a ?? b)).
Proof.
  intros Ha Hb. apply traceT_bind_Forall; [done|]. intros [x|]; [constructor|done].
Qed.

Lemma traceT_await_Forall {X} (P : event -> Prop) env (q : query X) :
  P (Called q) -> Forall P (traceT env (await q)).
Proof. intros HP. by repeat constructor. Qed.

Lemma traceT_ret_Forall {A} (P : event -> Prop) env (a : A) : Forall P (traceT env (mret a)).
Proof. constructor. Qed.

Lemma traceT_statusDate env id v2 where_ :
  Forall (rawStatusLookupAt (rawPath v2 id)) (traceT env (statusDate env id v2 where_)).
Proof.
  unfold statusDate. apply traceT_bind_Forall; [|intros; apply traceT_ret_Forall].
  by apply traceT_nullish_Forall; apply traceT_await_Forall.
Qed.

Lemma traceT_proposalCreatedAt keys env id :
  Forall (rawStatusLookupAt keys) (traceT env (proposalCreatedAt env id)).
Proof.
  unfold proposalCreatedAt. destruct (invalidId id); [constructor|].
  apply traceT_bind_Forall; [|intros; apply traceT_ret_Forall].
  by repeat apply traceT_nullish_Forall; apply traceT_await_Forall.
Qed.

Lemma traceT_intoResponse env proposal id v2 :
  Forall (rawStatusLookupAt (rawPath v2 id)) (traceT env (intoResponse env proposal id v2)).
Proof.
  unfold intoResponse.
  apply traceT_bind_Forall; [apply traceT_proposalCreatedAt|intros createdAt].
  apply traceT_bind_Forall; [|intros executedAt].
  { case_match; [apply traceT_statusDate|apply traceT_ret_Forall]. }
  apply traceT_bind_Forall; [|intros closedAt].
  { case_match; [apply traceT_statusDate|apply traceT_ret_Forall]. }
  apply traceT_bind_Forall; [|intros; apply traceT_ret_Forall].
  repeat case_match; first [apply traceT_statusDate|apply traceT_ret_Forall].
Qed.

Lemma runT_proposal env id :
  invalidId id = false ->
  runT env (proposal env id) =
  let '(found, consulted) := orderedFallback (proposalSources env id) in
  match found with
  | Some (record, v2) =>
      let '(r, tr) := runT env (intoResponse env record (NumberArg id) v2) in
      (outcome_map Some r, consulted ++ tr)
  | None => (Returned None, consulted)
  end.
Proof.
  intros Hid. unfold proposal, proposalSources. rewrite Hid.
  rewrite runT_bind, runT_await. cbn [answer orderedFallback].
  destruct (getTransformationMatch env KProposal _ _) as [[record]|];
    cbn [fmap option_fmap option_map value].
  { rewrite runT_bind.
    destruct (runT env (intoResponse _ _ _ _)) as [[r|m] tr]; cbn; by rewrite ?app_nil_r. }
  rewrite runT_bind, runT_await. cbn [answer].
  destruct (get env KProposal _ [KeyS "proposals_v2"; _]) as [record|].
  { rewrite runT_bind.
    destruct (runT env (intoResponse _ _ _ _)) as [[r|m] tr]; cbn; by rewrite ?app_nil_r. }
  rewrite runT_bind, runT_await. cbn [answer].
  destruct (get env KProposal _ _) as [record|]; [|done].
  rewrite runT_bind.
  destruct (runT env (intoResponse _ _ _ _)) as [[r|m] tr]; cbn; by rewrite ?app_nil_r.
Qed.

Lemma run_listProposals env limit startAfter filter :
  run env (listProposals env limit startAfter filter) =
  let '(found, consulted) := orderedFallback (proposalsSources env) in
  match found with
  | Some (proposals, v2) =>
      let '(r, tr) :=
        runPool env
          (map (fun id => intoResponseOf env (proposals !! id) (Num id) v2)
             (ascendingIds proposals limit startAfter)) in
      (outcome_map (List.filter (keptBy filter)) r, consulted ++ tr)
  | None => (Returned [], consulted)
  end.
Proof.
  unfold listProposals, proposalsSources.
  rewrite run_bind, run_await. cbn [answer orderedFallback].
  destruct (getTransformationMap env KProposal _ _) as [proposals|].
  { rewrite run_bind. cbn [mret prog_ret run app]. rewrite run_bind.
    unfold Promise_all. cbn [run].
    destruct (runPool env _) as [[rs|m] tr]; cbn; by rewrite ?app_nil_r. }
  rewrite run_bind, run_bind, run_await. cbn [answer].
  destruct (getMapNumber env KProposal _ [KeyS "proposals_v2"]) as [proposals|].
  { cbn [mret prog_ret run app]. rewrite run_bind. unfold Promise_all. cbn [run].
    destruct (runPool env _) as [[rs|m] tr]; cbn; by rewrite ?app_nil_r. }
  rewrite run_bind, run_await. cbn [answer mret prog_ret run app].
  destruct (getMapNumber env KProposal _ _) as [proposals|]; [|done].
  rewrite run_bind. unfold Promise_all. cbn [run].
  destruct (runPool env _) as [[rs|m] tr]; cbn; by rewrite ?app_nil_r.
Qed.

Lemma run_reverseProposals env limit startBefore :
  run env (reverseProposals env limit startBefore) =
  let '(found, consulted) := orderedFallback (proposalsSources env) in
  match found with
  | Some (proposals, v2) =>
      let '(r, tr) :=
        runPool env
          (map (fun id => intoResponseOf env (proposals !! id) (Num id) v2)
             (descendingIds proposals limit startBefore)) in
      (r, consulted ++ tr)
  | None => (Returned [], consulted)
  end.
Proof.
  unfold reverseProposals, proposalsSources.
  rewrite run_bind, run_await. cbn [answer orderedFallback].
  destruct (getTransformationMap env KProposal _ _) as [proposals|].
  { rewrite run_bind. cbn [mret prog_ret run app]. unfold Promise_all. cbn [run].
    destruct (runPool env _) as [[rs|m] tr]; cbn; by rewrite ?app_nil_r. }
  rewrite run_bind, run_bind, run_await. cbn [answer].
  destruct (getMapNumber env KProposal _ [KeyS "proposals_v2"]) as [proposals|].
  { cbn [mret prog_ret run app]. unfold Promise_all. cbn [run].
    destruct (runPool env _) as [[rs|m] tr]; cbn; by rewrite ?app_nil_r. }
  rewrite run_bind, run_await. cbn [answer mret prog_ret run app].
  destruct (getMapNumber env KProposal _ _) as [proposals|]; [|done].
  unfold Promise_all. cbn [run].
  destruct (runPool env _) as [[rs|m] tr]; cbn; by rewrite ?app_nil_r.
Qed.

Lemma traceT_statusDate_eq env id v2 where_ :
  traceT env (statusDate env id v2 where_) =
  Called (GetDateFirstTransformed env.(contractAddress) ("proposal:" +:+ toString id) (Some where_))
  :: match env.(getDateFirstTransformed) env.(contractAddress)
             ("proposal:" +:+ toString id) (Some where_) with
     | Some _ => []
     | None =>
         [Called (GetDateKeyFirstSetWithValueMatch env.(contractAddress) (rawPath v2 id) where_)]
     end.
Proof.
  unfold traceT, statusDate. rewrite runT_bind, runT_nullish, !runT_await. cbn [answer].
  by destruct (getDateFirstTransformed env _ _ _).
Qed.

Lemma raw_lookup_made env id v2 where_ :
  env.(getDateFirstTransformed) env.(contractAddress)
    ("proposal:" +:+ toString id) (Some where_) = None ->
  Called (GetDateKeyFirstSetWithValueMatch env.(contractAddress) (rawPath v2 id) where_)
  ∈ traceT env (statusDate env id v2 where_).
Proof. intros Hnone. rewrite traceT_statusDate_eq, Hnone. by right; left. Qed.

(** The calls of [intoResponse] for a valid id: those of [proposalCreatedAt],
    then those of the status dates the status asks for. *)
Lemma traceT_intoResponse_eq env record id v2 :
  validIdNum id = true ->
  let r := responseOf env record id v2 in
  traceT env (intoResponse env record id v2) =
  traceT env (proposalCreatedAt env (Some (toString id))) ++
  (if status_is r.(res_proposal).(status) StatusEnum.Executed
      || status_is r.(res_proposal).(status) StatusEnum.ExecutionFailed
   then traceT env (statusDate env id v2 (status_in ["executed"; "execution_failed"]))
   else []) ++
  (if status_is r.(res_proposal).(status) StatusEnum.Closed
   then traceT env (statusDate env id v2 (status_eq "closed"))
   else []) ++
  (if negb (status_is r.(res_proposal).(status) StatusEnum.Open)
   then
     if truthy r.(executedAt) then []
     else if truthy r.(closedAt) then []
     else traceT env (statusDate env id v2 (status_in ["passed"; "rejected"]))
   else []).
Proof.
  intros Hvalid. cbv zeta. unfold responseOf, intoResponse. cbv zeta.
  cbn [res_proposal executedAt closedAt].
  rewrite traceT_bind, evalT_proposalCreatedAt, invalidId_toString, Hvalid. cbn [negb].
  f_equal.
  destruct (status_is _ StatusEnum.Executed || status_is _ StatusEnum.ExecutionFailed);
    destruct (status_is _ StatusEnum.Closed);
    destruct (negb (status_is _ StatusEnum.Open));
    rewrite traceT_bind, ?evalT_statusDate, ?evalT_ret; cbv beta iota;
    rewrite traceT_bind, ?evalT_statusDate, ?evalT_ret; cbv beta iota;
    rewrite traceT_bind;
    repeat match goal with
           | |- context [truthy ?x] => destruct (truthy x)
           end;
    rewrite ?evalT_statusDate, ?evalT_ret; cbn [traceT runT snd mret task_ret];
    by rewrite ?app_nil_r.
Qed.

(** The status dates of a response, and the raw lookups made for them. *)
Lemma intoResponse_status_dates env record id v2 r :
  evalT env (intoResponse env record id v2) = Returned r ->
  let indexed := fun where_ =>
    env.(getDateFirstTransformed) env.(contractAddress)
      ("proposal:" +:+ toString id) (Some where_) in
  let looked := fun where_ =>
    Called (GetDateKeyFirstSetWithValueMatch env.(contractAddress) (rawPath v2 id) where_)
    ∈ traceT env (intoResponse env record id v2) in
  (r.(res_proposal).(status) = Enum StatusEnum.Executed \/
   r.(res_proposal).(status) = Enum StatusEnum.ExecutionFailed ->
   r.(executedAt) = statusDateOf env id v2 (status_in ["executed"; "execution_failed"]) /\
   (indexed (status_in ["executed"; "execution_failed"]) = None ->
    looked (status_in ["executed"; "execution_failed"]))) /\
  (r.(res_proposal).(status) = Enum StatusEnum.Closed ->
   r.(closedAt) = statusDateOf env id v2 (status_eq "closed") /\
   (indexed (status_eq "closed") = None -> looked (status_eq "closed"))) /\
  (r.(res_proposal).(status) <> Enum StatusEnum.Open ->
   r.(executedAt) = None ->
   r.(closedAt) = None ->
   r.(completedAt) = statusDateOf env id v2 (status_in ["passed"; "rejected"]) /\
   (indexed (status_in ["passed"; "rejected"]) = None ->
    looked (status_in ["passed"; "rejected"]))).
Proof.
  rewrite evalT_intoResponse. destruct (validIdNum id) eqn:Hvalid; [|done].
  intros [= <-]. cbv zeta. rewrite (traceT_intoResponse_eq env record id v2 Hvalid).
  set (r := responseOf env record id v2).
  assert (r.(executedAt) =
          if status_is r.(res_proposal).(status) StatusEnum.Executed
             || status_is r.(res_proposal).(status) StatusEnum.ExecutionFailed
          then statusDateOf env id v2 (status_in ["executed"; "execution_failed"])
          else None) as Hexecuted by done.
  assert (r.(closedAt) =
          if status_is r.(res_proposal).(status) StatusEnum.Closed
          then statusDateOf env id v2 (status_eq "closed")
          else None) as Hclosed by done.
  assert (r.(completedAt) =
          if negb (status_is r.(res_proposal).(status) StatusEnum.Open)
          then or_ r.(executedAt)
                 (or_ r.(closedAt) (statusDateOf env id v2 (status_in ["passed"; "rejected"])))
          else None) as Hcompleted by done.
  split; [|split].
  - intros Hstatus.
    assert (status_is r.(res_proposal).(status) StatusEnum.Executed
            || status_is r.(res_proposal).(status) StatusEnum.ExecutionFailed = true) as Hcond.
    { apply orb_true_iff. by rewrite !status_is_true. }
    rewrite Hexecuted, Hcond. split; [done|]. intros Hnone.
    apply elem_of_app; right. apply elem_of_app; left. by apply raw_lookup_made.
  - intros Hstatus%status_is_true. rewrite Hclosed, Hstatus. split; [done|]. intros Hnone.
    apply elem_of_app; right. apply elem_of_app; right. apply elem_of_app; left.
    by apply raw_lookup_made.
  - intros Hstatus%status_is_false Hnoexecuted Hnoclosed.
    rewrite Hcompleted, Hstatus, Hnoexecuted, Hnoclosed. cbn [negb or_ truthy].
    split; [done|]. intros Hnone.
    do 3 (apply elem_of_app; right). by apply raw_lookup_made.
Qed.


(** ** Pages of proposal ids *)

Lemma elem_of_keys {V} (m : gmap Z V) k : k ∈ keys m <-> k ∈ dom m.
Proof.
  unfold keys. rewrite elem_of_dom, list_elem_of_fmap. split.
  - intros [[k' v] [-> Hin%elem_of_map_to_list]]. by exists v.
  - intros [v Hv]. exists (k, v). by rewrite elem_of_map_to_list.
Qed.

Lemma NoDup_keys {V} (m : gmap Z V) : NoDup (keys m).
Proof. apply NoDup_fst_map_to_list. Qed.

#[local] Instance ascending_trans : Transitive (before (fun a b : Z => a - b)).
Proof. unfold before. intros a b c. lia. Qed.
#[local] Instance ascending_total : Total (before (fun a b : Z => a - b)).
Proof. unfold before. intros a b. lia. Qed.
#[local] Instance descending_trans : Transitive (before (fun a b : Z => b - a)).
Proof. unfold before. intros a b c. lia. Qed.
#[local] Instance descending_total : Total (before (fun a b : Z => b - a)).
Proof. unfold before. intros a b. lia. Qed.

Lemma StronglySorted_strict (R S : Z -> Z -> Prop) l :
  (forall a b, R a b -> a <> b -> S a b) ->
  StronglySorted R l -> NoDup l -> StronglySorted S l.
Proof.
  intros HRS. induction 1 as [|a l Hl IH Ha]; intros Hnd; [constructor|].
  apply NoDup_cons in Hnd as [Hnotin Hnd]. constructor; [by apply IH|].
  apply Forall_forall. intros b Hb. apply HRS.
  - by eapply Forall_forall in Ha.
  - by intros ->.
Qed.

Lemma StronglySorted_List_filter {A} (R : A -> A -> Prop) (f : A -> bool) l :
  StronglySorted R l -> StronglySorted R (List.filter f l).
Proof.
  induction 1 as [|a l Hl IH Ha]; cbn; [constructor|].
  destruct (f a); [|done]. constructor; [done|].
  apply Forall_forall. intros b [Hb _]%list_elem_of_In%filter_In.
  eapply Forall_forall in Ha; [done|]. by apply list_elem_of_In.
Qed.

Lemma elem_of_List_filter {A} (f : A -> bool) l x :
  x ∈ List.filter f l <-> x ∈ l /\ f x = true.
Proof. by rewrite !list_elem_of_In, filter_In. Qed.

Lemma sublist_List_filter {A} (f : A -> bool) (l : list A) : List.filter f l `sublist_of` l.
Proof.
  induction l as [|x l IH]; cbn; [done|]. destruct (f x); by constructor.
Qed.

Lemma List_filter_true {A} (f : A -> bool) l : (forall x, f x = true) -> List.filter f l = l.
Proof. intros Hf. induction l as [|x l IH]; cbn; [done|]. by rewrite Hf, IH. Qed.

Lemma sort_ascending (l : list Z) :
  NoDup l ->
  StronglySorted Z.lt (sort (fun a b => a - b) l) /\
  (forall x, x ∈ sort (fun a b => a - b) l <-> x ∈ l).
Proof.
  intros Hnd. unfold sort. split.
  - eapply (StronglySorted_strict (before (fun a b => a - b))).
    + unfold before. intros a b. lia.
    + apply StronglySorted_merge_sort; apply _.
    + by rewrite merge_sort_Permutation.
  - intros x. by rewrite merge_sort_Permutation.
Qed.

Lemma sort_descending (l : list Z) :
  NoDup l ->
  StronglySorted Z.gt (sort (fun a b => b - a) l) /\
  (forall x, x ∈ sort (fun a b => b - a) l <-> x ∈ l).
Proof.
  intros Hnd. unfold sort. split.
  - eapply (StronglySorted_strict (before (fun a b => b - a))).
    + unfold before. intros a b. lia.
    + apply StronglySorted_merge_sort; apply _.
    + by rewrite merge_sort_Permutation.
  - intros x. by rewrite merge_sort_Permutation.
Qed.

Lemma slice0_limitNum {A} (l : list A) limit n :
  reads_as limit n -> slice0 l (limitNum limit) = cut n l.
Proof.
  unfold limitNum. destruct n as [n|]; cbn.
  - intros (-> & ->). cbn.
    destruct (Z.ltb_spec 0 n) as [Hpos|Hneg]; cbn.
    + by destruct (Z.ltb_spec n 0); [lia|].
    + by replace (Z.to_nat n) with 0%nat by lia.
  - by intros ->.
Qed.

Lemma gt_startAfterNum startAfter c id :
  reads_as startAfter c ->
  from_option (fun c => c < 0 -> 0 < id) True c ->
  gt (Num id) (startAfterNum startAfter) = true <-> from_option (fun c => c < id) True c.
Proof.
  unfold startAfterNum, gt. destruct c as [c|]; cbn.
  - intros (-> & ->) Hfits. cbn.
    destruct (Z.ltb_spec 0 c) as [Hpos|Hneg]; cbn; rewrite Z.ltb_lt; [done|]. lia.
  - by intros ->.
Qed.

Lemma lt_startBeforeNum startBefore c id :
  reads_as startBefore c ->
  from_option (fun c => c < 0 -> 0 < id) True c ->
  lt (Num id) (startBeforeNum startBefore) = true <-> from_option (fun c => id < c) True c.
Proof.
  unfold startBeforeNum. destruct c as [c|]; cbn.
  - intros (-> & ->) Hfits. cbn.
    destruct (Z.ltb_spec 0 c) as [Hpos|Hneg]; cbn; rewrite Z.ltb_lt; [done|]. lia.
  - by intros ->.
Qed.

Lemma cursor_fits_id ids c id :
  cursor_fits ids c -> id ∈ ids -> from_option (fun c => c < 0 -> 0 < id) True c.
Proof. destruct c as [c|]; cbn; [|done]. intros Hfits Hin Hneg. by apply Hfits. Qed.

Lemma ascendingIds_page proposals limit startAfter c n :
  reads_as limit n ->
  reads_as startAfter c ->
  cursor_fits (dom proposals) c ->
  ascending_page (dom proposals) c n (ascendingIds proposals limit startAfter).
Proof.
  intros Hn Hc Hfits. unfold ascendingIds.
  destruct (sort_ascending (keys proposals) (NoDup_keys _)) as [Hsorted Helem].
  eexists. split; [|split; [|by apply slice0_limitNum]].
  - by apply StronglySorted_List_filter.
  - intros id. rewrite elem_of_List_filter, Helem, elem_of_keys.
    split; intros [Hin Hid]; (split; [done|]);
      by eapply gt_startAfterNum; [|eapply cursor_fits_id|].
Qed.

Lemma descendingIds_page proposals limit startBefore c n :
  reads_as limit n ->
  reads_as startBefore c ->
  cursor_fits (dom proposals) c ->
  descending_page (dom proposals) c n (descendingIds proposals limit startBefore).
Proof.
  intros Hn Hc Hfits. unfold descendingIds.
  destruct (sort_descending (keys proposals) (NoDup_keys _)) as [Hsorted Helem].
  eexists. split; [|split; [|by apply slice0_limitNum]].
  - by apply StronglySorted_List_filter.
  - intros id. rewrite elem_of_List_filter, Helem, elem_of_keys.
    split; intros [Hin Hid]; (split; [done|]);
      by eapply lt_startBeforeNum; [|eapply cursor_fits_id|].
Qed.


(** ** Pools *)

Lemma evalPool_nil {X} env : evalPool env (@nil (task X)) = Returned [].
Proof. done. Qed.

Lemma evalPool_cons {X} env (t : task X) ts :
  evalPool env (t :: ts) =
  match evalT env t, evalPool env ts with
  | Returned x, Returned xs => Returned (x :: xs)
  | Thrown m, _ => Thrown m
  | _, Thrown m => Thrown m
  end.
Proof.
  unfold evalPool, evalT. cbn.
  by destruct (runT env t) as [[x|m] tr], (runPool env ts) as [[xs|m'] trs].
Qed.

Lemma evalPool_Returned {X} env (ts : list (task X)) vs :
  evalPool env ts = Returned vs <-> Forall2 (fun t v => evalT env t = Returned v) ts vs.
Proof.
  revert vs. induction ts as [|t ts IH]; intros vs.
  - rewrite evalPool_nil. split; [by intros [= <-]; constructor|by inv 1].
  - rewrite evalPool_cons. split.
    + destruct (evalT env t) as [x|m] eqn:Ht; [|done].
      destruct (evalPool env ts) as [xs|m] eqn:Hts; [|done].
      intros [= <-]. constructor; [done|]. by apply IH.
    + inv 1 as [|? v ? vs' Ht Hts]. rewrite Ht. apply IH in Hts. by rewrite Hts.
Qed.

Lemma evalPool_Thrown {X} env (ts : list (task X)) m :
  evalPool env ts = Thrown m -> exists t, t ∈ ts /\ evalT env t = Thrown m.
Proof.
  induction ts as [|t ts IH]; [done|]. rewrite evalPool_cons.
  destruct (evalT env t) as [x|m'] eqn:Ht.
  - destruct (evalPool env ts) as [xs|m'] eqn:Hts; [done|].
    intros [= ->]. destruct IH as (t' & Hin & Ht'); [done|].
    exists t'. split; [by right|done].
  - intros [= ->]. exists t. split; [by left|done].
Qed.

Lemma eval_Promise_all {X} env (ts : list (task X)) :
  eval env (Promise_all ts) = evalPool env ts.
Proof.
  unfold eval, evalPool, Promise_all. cbn.
  by destruct (runPool env ts) as [[xs|m] tr].
Qed.

Lemma eval_await {X} env (q : query X) : eval env (await q) = Returned (answer env q).
Proof. done. Qed.

Lemma eval_ret {A} env (a : A) : eval env (mret a) = Returned a.
Proof. done. Qed.

(** ** [listVotes] *)

Lemma imap_item {A B C} (g : A -> option B) (h : A -> option B -> C) (l : list A) :
  imap (fun index x => h x (item_opt (Some (map g l)) index)) l = map (fun x => h x (g x)) l.
Proof.
  rewrite <-(imap_const (fun x => h x (g x))). apply imap_ext.
  intros i x Hx. cbn. unfold item.
  change (map g l) with (g <$> l). by rewrite list_lookup_fmap, Hx.
Qed.

Lemma imap_item_None {A B C} (h : A -> option B -> C) (l : list A) :
  imap (fun index x => h x (item_opt None index)) l = map (fun x => h x None) l.
Proof. by rewrite <-(imap_const (fun x => h x None)). Qed.

Lemma evalPool_await {A X} env (q : A -> query X) (l : list A) :
  evalPool env (map (fun x => await (q x)) l) = Returned (map (fun x => answer env (q x)) l).
Proof.
  induction l as [|x l IH]; [done|]. cbn [map]. by rewrite evalPool_cons, IH.
Qed.

Lemma eval_listVotes_raw env proposalId limit startAfter :
  invalidId proposalId = false ->
  env.(getTransformationMatches) KVoteCast env.(contractAddress)
    ("voteCast:*:" +:+ text proposalId)
    (if truthy startAfter
     then Some (Op_gt ("voteCast:" +:+ text startAfter +:+ ":" +:+ text proposalId))
     else None)
    (if truthy limit then Some (limitNum limit) else None) = None ->
  let ballots :=
    default ∅ (env.(getMapString) KBallot env.(contractAddress)
                 [KeyS "ballots"; KeyN (NumberArg proposalId)]) in
  let voters := pageVoters ballots limit startAfter in
  eval env (listVotes env proposalId limit startAfter) =
  Returned (rawVotes env proposalId ballots (bool_decide (length voters <= 50)%nat) voters).
Proof.
  intros Hid Hnone. cbv zeta. unfold listVotes. rewrite Hid.
  rewrite eval_bind, eval_await. cbn [answer]. cbn [denote] in *. rewrite Hnone.
  cbn [fmap option_fmap option_map].
  rewrite !eval_bind, eval_await. cbn [answer]. cbn [denote].
  set (ballots := default ∅ _). set (voters := pageVoters _ _ _).
  unfold rawVotes, length_, le. cbn [lt negb].
  destruct (Z.ltb_spec 50 (Z.of_nat (length voters))) as [Hlt|Hle]; cbn [negb].
  - rewrite bool_decide_eq_false_2 by lia.
    rewrite eval_bind, eval_ret. cbv beta iota. rewrite !eval_ret. cbv beta iota.
    rewrite (imap_item_None (fun voter d => {| vc_voter := voter; vc_vote := ballots !! voter; vc_votedAt := d ?> toISOString |})).
    by rewrite map_map.
  - rewrite bool_decide_eq_true_2 by lia.
    rewrite !eval_bind, eval_Promise_all, evalPool_await. cbv beta iota.
    rewrite ?eval_ret. cbv beta iota. rewrite ?eval_ret. cbv beta iota.
    rewrite (imap_item _ (fun voter d => {| vc_voter := voter; vc_vote := ballots !! voter; vc_votedAt := d ?> toISOString |})).
    by rewrite map_map.
Qed.


(** ** [listProposals] *)

Lemma elem_of_slice0 {A} (l : list A) n x : x ∈ slice0 l n -> x ∈ l.
Proof.
  destruct n as [| |z|]; cbn; [by inv 1|by inv 1| |done].
  destruct (z <? 0); apply subseteq_take.
Qed.

Lemma ascendingIds_dom proposals limit startAfter id :
  id ∈ ascendingIds proposals limit startAfter -> id ∈ dom proposals.
Proof.
  unfold ascendingIds. intros [Hin _]%elem_of_slice0%elem_of_List_filter.
  apply elem_of_keys. unfold sort in Hin. by rewrite merge_sort_Permutation in Hin.
Qed.

Lemma descendingIds_dom proposals limit startBefore id :
  id ∈ descendingIds proposals limit startBefore -> id ∈ dom proposals.
Proof.
  unfold descendingIds. intros [Hin _]%elem_of_slice0%elem_of_List_filter.
  apply elem_of_keys. unfold sort in Hin. by rewrite merge_sort_Permutation in Hin.
Qed.

Lemma validIdNum_Num id : validIdNum (Num id) = true <-> 0 <= id.
Proof.
  unfold validIdNum. cbn. destruct (Z.ltb_spec id 0); cbn; split; (done || lia).
Qed.

(** The responses of a page whose ids are all stored and non-negative. *)
Lemma evalPool_intoResponseOf env (proposals : gmap Z SingleChoiceProposal) v2 page :
  (forall id, id ∈ page -> id ∈ dom proposals /\ 0 <= id) ->
  exists responses,
    Forall2 (fun id r =>
               exists record,
                 proposals !! id = Some record /\
                 evalT env (intoResponse env record (Num id) v2) = Returned r)
      page responses /\
    evalPool env (map (fun id => intoResponseOf env (proposals !! id) (Num id) v2) page)
    = Returned responses.
Proof.
  induction page as [|id page IH]; intros Hpage.
  - exists []. split; [constructor|done].
  - destruct IH as (responses & Hall & Hpool).
    { intros id' Hin. apply Hpage. by right. }
    destruct (Hpage id) as [[record Hrecord]%elem_of_dom Hid]; [by left|].
    exists (responseOf env record (Num id) v2 :: responses). split.
    + constructor; [|done]. exists record. split; [done|].
      apply intoResponse_returns. by apply validIdNum_Num.
    + cbn [map]. rewrite evalPool_cons, Hpool, Hrecord. cbn [intoResponseOf].
      rewrite intoResponse_returns; [done|]. by apply validIdNum_Num.
Qed.

Lemma eval_listProposals env limit startAfter filter proposals v2 :
  (orderedFallback (proposalsSources env)).1 = Some (proposals, v2) ->
  eval env (listProposals env limit startAfter filter) =
  outcome_map (List.filter (keptBy filter))
    (evalPool env
       (map (fun id => intoResponseOf env (proposals !! id) (Num id) v2)
          (ascendingIds proposals limit startAfter))).
Proof.
  intros Hfound. unfold eval, evalPool. rewrite run_listProposals.
  destruct (orderedFallback (proposalsSources env)) as [found consulted].
  cbn in Hfound. subst found. by destruct (runPool env _).
Qed.

Lemma keptBy_passed r :
  keptBy (Some "passed") r = keptByPassed r.(res_proposal).(status).
Proof.
  unfold keptBy. rewrite bool_decide_eq_true_2 by done.
  by destruct (status (res_proposal r)) as [[]|e].
Qed.

Lemma keptBy_true filter r :
  keptBy filter r = true <->
  (filter = Some "passed" ->
   r.(res_proposal).(status) = Enum StatusEnum.Passed \/
   r.(res_proposal).(status) = Enum StatusEnum.Executed \/
   r.(res_proposal).(status) = Enum StatusEnum.ExecutionFailed).
Proof.
  unfold keptBy. destruct (decide (filter = Some "passed")) as [Hpassed|Hother].
  - rewrite bool_decide_eq_true_2 by done. rewrite !orb_true_iff, !status_is_true.
    split; [intros [[?|?]|?] _; auto|intros Hkept; destruct (Hkept Hpassed) as [?|[?|?]]; auto].
  - rewrite bool_decide_eq_false_2 by done. split; [by intros _ ?|done].
Qed.

(** C10: the status filter of [listProposals] is applied to the page after
    the [startAfter] / [limit] truncation.  The ids are sorted ascending, cut
    at the cursor and truncated to the limit; each id of that page is turned
    into its response; and only then are responses dropped: with the filter
    ['passed'] the result is these responses, in their order, without the ones
    that are not passed, executed or failed in execution, and with any other
    filter the result is all of them.  So the result never reaches beyond the
    truncated page, and may be shorter than it. *)
Theorem listProposals_filters_after_truncation env limit startAfter filter proposals v2 c n :
  (orderedFallback (proposalsSources env)).1 = Some (proposals, v2) ->
  set_Forall (fun id => 0 <= id) (dom proposals) ->
  reads_as limit n ->
  reads_as startAfter c ->
  cursor_fits (dom proposals) c ->
  exists page responses result,
    ascending_page (dom proposals) c n page /\
    Forall2 (fun id r =>
               exists record,
                 proposals !! id = Some record /\
                 evalT env (intoResponse env record (Num id) v2) = Returned r)
      page responses /\
    eval env (listProposals env limit startAfter filter) = Returned result /\
    result =
      (if bool_decide (filter = Some "passed")
       then List.filter (fun r => keptByPassed r.(res_proposal).(status)) responses
       else responses) /\
    result `sublist_of` responses /\
    (forall r,
       r ∈ result <->
       r ∈ responses /\
       (filter = Some "passed" ->
        r.(res_proposal).(status) = Enum StatusEnum.Passed \/
        r.(res_proposal).(status) = Enum StatusEnum.Executed \/
        r.(res_proposal).(status) = Enum StatusEnum.ExecutionFailed)).
Proof.
  intros Hfound Hids Hn Hc Hfits.
  destruct (evalPool_intoResponseOf env proposals v2 (ascendingIds proposals limit startAfter))
    as (responses & Hall & Hpool).
  { intros id Hin%ascendingIds_dom. split; [done|by apply Hids]. }
  exists (ascendingIds proposals limit startAfter), responses,
    (List.filter (keptBy filter) responses).
  split; [by apply ascendingIds_page|]. split; [done|].
  split; [by rewrite (eval_listProposals _ _ _ _ proposals v2), Hpool|].
  split; [|split].
  - destruct (decide (filter = Some "passed")) as [->|Hother].
    + rewrite bool_decide_eq_true_2 by done. apply filter_ext. intros r. apply keptBy_passed.
    + rewrite bool_decide_eq_false_2 by done. apply List_filter_true.
      intros r. by apply keptBy_true.
  - apply sublist_List_filter.
  - intros r. by rewrite elem_of_List_filter, keptBy_true.
Qed.

(** ** Schedules *)

Lemma task_step_evalT {A} env (t t' : task A) :
  task_step env t t' -> evalT env t' = evalT env t.
Proof.
  destruct 1 as [X q k]. unfold evalT. cbn. by destruct (runT env (k (answer env q))).
Qed.

Lemma task_steps_evalT {A} env (t t' : task A) :
  rtc (task_step env) t t' -> evalT env t' = evalT env t.
Proof.
  induction 1 as [|t t' t'' Hstep _ IH]; [done|]. by rewrite IH, (task_step_evalT env t t').
Qed.

Lemma task_steps_settled {A} env (t : task A) : rtc (task_step env) t (settled env t).
Proof.
  induction t as [a|m|X q k IH]; [done..|].
  eapply rtc_l; [constructor|].
  replace (settled env (TAwait q k)) with (settled env (k (answer env q))); [apply IH|].
  unfold settled. by rewrite <-(task_step_evalT env (TAwait q k) (k (answer env q))) by constructor.
Qed.

Lemma pool_step_evalT {A} env (ts ts' : list (task A)) :
  pool_step env ts ts' -> Forall2 (fun t t' => evalT env t' = evalT env t) ts ts'.
Proof.
  destruct 1 as [ts i t t' Hi Hstep].
  apply Forall2_same_length_lookup. split; [by rewrite length_insert|].
  intros j u u' Hu Hu'. destruct (decide (i = j)) as [->|Hne].
  - rewrite list_lookup_insert_eq in Hu' by (by eapply lookup_lt_Some).
    assert (u = t) as -> by congruence. assert (u' = t') as -> by congruence.
    by apply task_step_evalT.
  - rewrite list_lookup_insert_ne in Hu' by done. congruence.
Qed.

Lemma pool_steps_evalT {A} env (ts ts' : list (task A)) :
  rtc (pool_step env) ts ts' -> Forall2 (fun t t' => evalT env t' = evalT env t) ts ts'.
Proof.
  induction 1 as [ts|ts ts' ts'' Hstep%pool_step_evalT _ IH].
  - by apply Forall_Forall2_diag, Forall_true.
  - eapply Forall2_trans; [|done..]. cbn. congruence.
Qed.

(** A pool whose tasks have all returned gives the values [run] gives, in the
    same order. *)
Lemma pool_fulfilled {A} env (ts : list (task A)) xs :
  rtc (pool_step env) ts (map TRet xs) -> evalPool env ts = Returned xs.
Proof.
  intros Hsteps%pool_steps_evalT. apply evalPool_Returned.
  change (map TRet xs) with (TRet <$> xs) in Hsteps. apply Forall2_fmap_r in Hsteps.
  eapply Forall2_impl; [done|]. cbn. by intros t x <-.
Qed.

(** A task that has thrown in some schedule throws under [run]. *)
Lemma pool_rejected {A} env (ts ts' : list (task A)) i m :
  rtc (pool_step env) ts ts' ->
  ts' !! i = Some (TThrow m) ->
  exists t, t ∈ ts /\ evalT env t = Thrown m.
Proof.
  intros Hsteps%pool_steps_evalT Hi.
  destruct (Forall2_lookup_r _ _ _ _ _ Hsteps Hi) as (t & Ht & Heq).
  exists t. split; [by eapply list_elem_of_lookup_2|done].
Qed.

Lemma pool_steps_cons {A} env (t : task A) ts ts' :
  rtc (pool_step env) ts ts' -> rtc (pool_step env) (t :: ts) (t :: ts').
Proof.
  induction 1 as [|ts ts' ts'' Hstep _ IH]; [done|].
  eapply rtc_l; [|done]. destruct Hstep as [ts i u u' Hi Hstep].
  by apply (pool_step_at env (t :: ts) (S i) u u').
Qed.

Lemma pool_steps_head {A} env (t t' : task A) ts :
  rtc (task_step env) t t' -> rtc (pool_step env) (t :: ts) (t' :: ts).
Proof.
  induction 1 as [|t t' t'' Hstep _ IH]; [done|].
  eapply rtc_l; [|done]. by apply (pool_step_at env (t :: ts) 0 t t').
Qed.

(** Every pool has a schedule that runs all of its tasks to their end. *)
Lemma pool_steps_settled {A} env (ts : list (task A)) :
  rtc (pool_step env) ts (map (settled env) ts).
Proof.
  induction ts as [|t ts IH]; [done|]. cbn [map].
  etrans; [by apply pool_steps_head, task_steps_settled|]. by apply pool_steps_cons.
Qed.

(** Every schedule ends as [run] does. *)
Lemma exec_eval {A} env (p : prog A) r :
  unanimous env p -> exec env p r -> r = eval env p.
Proof.
  intros Hp Hexec. induction Hexec as
    [a|m|X t k x r Ht _ IH|X t k m Ht|X ts k xs r Hts _ IH|X ts ts' k i m Hts Hi].
  - done.
  - done.
  - apply task_steps_evalT in Ht. cbn in Ht, Hp.
    rewrite IH by (by apply Hp). unfold eval, evalT in *. cbn.
    destruct (runT env t) as [[x'|m'] tr]; cbn in Ht; [|done].
    injection Ht as <-. by destruct (run env (k x)).
  - apply task_steps_evalT in Ht. unfold eval, evalT in *. cbn.
    destruct (runT env t) as [[x'|m'] tr]; cbn in Ht; [done|]. by injection Ht as ->.
  - apply pool_fulfilled in Hts. destruct Hp as [_ Hp].
    rewrite IH by (by apply Hp). unfold eval, evalPool in *. cbn.
    destruct (runPool env ts) as [[xs'|m'] tr]; cbn in Hts; [|done].
    injection Hts as ->. by destruct (run env (k xs)).
  - destruct (pool_rejected env ts ts' i m Hts Hi) as (t & Hin & Ht).
    destruct Hp as [Hp _]. unfold eval. cbn.
    destruct (runPool env ts) as [[xs|m'] tr] eqn:Hpool; cbn.
    + assert (evalPool env ts = Returned xs) as Hxs by (unfold evalPool; by rewrite Hpool).
      apply evalPool_Returned in Hxs.
      apply list_elem_of_lookup in Hin as [j Hj].
      destruct (Forall2_lookup_l _ _ _ _ _ Hxs Hj) as (x & _ & Hx). congruence.
    + assert (evalPool env ts = Thrown m') as Hm' by (unfold evalPool; by rewrite Hpool).
      apply evalPool_Thrown in Hm' as (t' & Hin' & Ht').
      f_equal. exact (Hp t t' m m' Hin Hin' Ht Ht').
Qed.

(** [run] is the end of a schedule. *)
Lemma eval_exec {A} env (p : prog A) : exec env p (eval env p).
Proof.
  induction p as [a|m|X t k IH|X ts k IH].
  - constructor.
  - constructor.
  - pose proof (task_steps_settled env t) as Hsteps. unfold settled in Hsteps.
    unfold eval, evalT in *. cbn. destruct (runT env t) as [[x|m] tr]; cbn in Hsteps.
    + specialize (IH x). destruct (run env (k x)) as [r tr']. by eapply exec_Seq_returned.
    + by apply exec_Seq_thrown.
  - pose proof (pool_steps_settled env ts) as Hsteps.
    destruct (evalPool env ts) as [xs|m] eqn:Hpool.
    + assert (map (settled env) ts = map TRet xs) as Heq.
      { apply evalPool_Returned in Hpool. clear -Hpool.
        induction Hpool as [|t x ts xs Ht _ IH]; [done|]. cbn. unfold settled at 1.
        by rewrite Ht, IH. }
      rewrite Heq in Hsteps. specialize (IH xs).
      unfold eval, evalPool in *. cbn.
      destruct (runPool env ts) as [[xs'|m'] tr]; cbn in Hpool; [|done].
      injection Hpool as ->. destruct (run env (k xs)) as [r tr'].
      by eapply exec_All_fulfilled.
    + destruct (evalPool_Thrown env ts m Hpool) as (t & [i Hi]%list_elem_of_lookup & Ht).
      unfold eval, evalPool in *. cbn.
      destruct (runPool env ts) as [[xs'|m'] tr]; cbn in Hpool; [done|].
      injection Hpool as ->. cbn.
      eapply (exec_All_rejected env ts _ k i m); [done|].
      change (map (settled env) ts) with (settled env <$> ts).
      rewrite list_lookup_fmap, Hi. cbn. unfold settled. by rewrite Ht.
Qed.

(** ** Determinism of the formulas *)

Lemma unanimous_deterministic {A} env (p : prog A) : unanimous env p -> deterministic env p.
Proof.
  intros Hp. split; [exists (eval env p); apply eval_exec|].
  intros r1 r2 H1%exec_eval H2%exec_eval; congruence.
Qed.

Lemma unanimous_bind {A B} env (p : prog A) (f : A -> prog B) :
  unanimous env p ->
  (forall a, eval env p = Returned a -> unanimous env (f a)) ->
  unanimous env (p ≫= f).
Proof.
  induction p as [a|m|X t k IH|X ts k IH]; cbn; intros Hp Hf.
  - by apply Hf.
  - done.
  - intros x Hx. apply IH; [by apply Hp|]. intros a Ha. apply Hf.
    unfold eval, evalT in *. cbn. destruct (runT env t) as [[x'|m] tr]; cbn in Hx; [|done].
    injection Hx as ->. by destruct (run env (k x)).
  - destruct Hp as [Hts Hk]. split; [done|]. intros xs Hxs.
    apply IH; [by apply Hk|]. intros a Ha. apply Hf.
    unfold eval, evalPool in *. cbn. destruct (runPool env ts) as [[xs'|m] tr]; cbn in Hxs; [|done].
    injection Hxs as ->. by destruct (run env (k xs)).
Qed.

Lemma unanimous_await {X} env (q : query X) : unanimous env (await q).
Proof. by intros x _. Qed.

Lemma unanimous_call {A} env (t : task A) : unanimous env (call t).
Proof. by intros x _. Qed.

Lemma unanimous_Promise_all {X} env (ts : list (task X)) :
  (forall t1 t2 m1 m2,
     t1 ∈ ts -> t2 ∈ ts ->
     evalT env t1 = Thrown m1 -> evalT env t2 = Thrown m2 -> m1 = m2) ->
  unanimous env (Promise_all ts).
Proof. intros Hts. by split. Qed.

(** A pool all of whose tasks can only throw [m]. *)
Lemma unanimous_pool_of {X} env (ts : list (task X)) m :
  (forall t m', t ∈ ts -> evalT env t = Thrown m' -> m' = m) ->
  unanimous env (Promise_all ts).
Proof.
  intros Hts. apply unanimous_Promise_all. intros t1 t2 m1 m2 H1 H2 Hm1 Hm2.
  by rewrite (Hts t1 m1), (Hts t2 m2).
Qed.

Lemma intoResponseOf_thrown env (proposals : gmap Z SingleChoiceProposal) id v2 m :
  id ∈ dom proposals ->
  evalT env (intoResponseOf env (proposals !! id) (Num id) v2) = Thrown m ->
  m = "missing `id`".
Proof.
  intros [record ->]%elem_of_dom. cbn. rewrite evalT_intoResponse.
  destruct (validIdNum (Num id)); congruence.
Qed.

Lemma intoResponseOf_res_id env record id v2 r :
  evalT env (intoResponseOf env record id v2) = Returned r -> r.(res_id) = id.
Proof.
  destruct record as [record|]; [cbn|done]. rewrite evalT_intoResponse.
  destruct (validIdNum id); [|done]. by intros [= <-].
Qed.

Lemma unanimous_responses env (proposals : gmap Z SingleChoiceProposal) v2 page :
  (forall id, id ∈ page -> id ∈ dom proposals) ->
  unanimous env
    (Promise_all (map (fun id => intoResponseOf env (proposals !! id) (Num id) v2) page)).
Proof.
  intros Hpage. apply (unanimous_pool_of _ _ "missing `id`").
  intros t m (id & <- & Hin)%list_elem_of_In%in_map_iff. apply intoResponseOf_thrown.
  by apply Hpage, list_elem_of_In.
Qed.

Lemma evalPool_res_id env (proposals : gmap Z SingleChoiceProposal) v2 page responses :
  evalPool env (map (fun id => intoResponseOf env (proposals !! id) (Num id) v2) page)
  = Returned responses ->
  res_id <$> responses = Num <$> page.
Proof.
  intros Hpool%evalPool_Returned. revert responses Hpool.
  induction page as [|id page IH]; intros responses; inv 1 as [|? r ? rs Hr Hrs]; [done|].
  cbn. f_equal; [by eapply intoResponseOf_res_id|by apply IH].
Qed.

Lemma unanimous_listProposals env limit startAfter filter :
  unanimous env (listProposals env limit startAfter filter).
Proof.
  unfold listProposals.
  apply unanimous_bind; [apply unanimous_await|]. intros proposals _.
  apply unanimous_bind.
  { destruct proposals; [done|].
    apply unanimous_bind; [apply unanimous_await|]. intros proposalsV2 _.
    destruct proposalsV2; [done|].
    apply unanimous_bind; [apply unanimous_await|]. done. }
  intros [[found|] v2] _; [|done].
  apply unanimous_bind; [|done].
  apply unanimous_responses. intros id. apply ascendingIds_dom.
Qed.

Lemma unanimous_reverseProposals env limit startBefore :
  unanimous env (reverseProposals env limit startBefore).
Proof.
  unfold reverseProposals.
  apply unanimous_bind; [apply unanimous_await|]. intros proposals _.
  apply unanimous_bind.
  { destruct proposals; [done|].
    apply unanimous_bind; [apply unanimous_await|]. intros proposalsV2 _.
    destruct proposalsV2; [done|].
    apply unanimous_bind; [apply unanimous_await|]. done. }
  intros [[found|] v2] _; [|done].
  apply unanimous_responses. intros id. apply descendingIds_dom.
Qed.

Lemma unanimous_listVotes env proposalId limit startAfter :
  unanimous env (listVotes env proposalId limit startAfter).
Proof.
  unfold listVotes. destruct (invalidId proposalId); [done|].
  apply unanimous_bind; [apply unanimous_await|]. intros matches _.
  apply unanimous_bind; [|done].
  destruct (matches ?> map value); [done|].
  apply unanimous_bind; [apply unanimous_await|]. intros ballots _.
  apply unanimous_bind; [|done].
  case_match; [|done]. apply unanimous_bind; [|done].
  apply (unanimous_pool_of _ _ "").
  by intros t m (voter & <- & _)%list_elem_of_In%in_map_iff.
Qed.

Lemma returns_bind {A B} env (t : task A) (f : A -> task B) :
  returns env t -> (forall a, returns env (f a)) -> returns env (t ≫= f).
Proof.
  intros [a Ha] Hf. unfold returns. rewrite evalT_bind, Ha. apply Hf.
Qed.

Lemma returns_await {X} env (q : query X) : returns env (await q).
Proof. by eexists. Qed.

Lemma returns_ret {A} env (a : A) : returns env (mret a).
Proof. by eexists. Qed.

Lemma vote_returns env proposalId voter :
  truthy proposalId = true ->
  truthy voter = true ->
  returns env (vote env proposalId voter).
Proof.
  intros Hid Hvoter. unfold vote. rewrite Hid, Hvoter. cbn [negb].
  apply returns_bind; [apply returns_await|]. intros match_.
  apply returns_bind; [|intros; apply returns_ret].
  destruct (match_ ?> value); [apply returns_ret|].
  apply returns_bind; [apply returns_await|]. intros [ballot|]; [|apply returns_ret].
  apply returns_bind; [apply returns_await|]. intros; apply returns_ret.
Qed.

Lemma vote_thrown env proposalId voter m :
  truthy proposalId = true ->
  evalT env (vote env proposalId voter) = Thrown m ->
  m = "missing `voter`".
Proof.
  intros Hid Hthrown. destruct (truthy voter) eqn:Hvoter.
  - destruct (vote_returns env proposalId voter Hid Hvoter) as [r Hr]. congruence.
  - unfold vote in Hthrown. rewrite Hid, Hvoter in Hthrown. by injection Hthrown as <-.
Qed.

Lemma unanimous_openProposals env address :
  unanimous env (openProposals env address).
Proof.
  unfold openProposals.
  apply unanimous_bind; [apply unanimous_listProposals|]. intros proposals _.
  apply unanimous_bind; [|done].
  destruct (truthy address); [|done]. apply unanimous_bind; [|done].
  apply (unanimous_pool_of _ _ "missing `voter`").
  intros t m (r & <- & _)%list_elem_of_In%in_map_iff. apply vote_thrown.
  cbn. pose proof (toString_truthy (res_id r)) as Hne. apply String.eqb_neq in Hne.
  by rewrite Hne.
Qed.

Lemma eval_listProposals_ids env limit startAfter filter responses :
  eval env (listProposals env limit startAfter filter) = Returned responses ->
  res_id <$> responses `sublist_of` Num <$> ascendingIds (foundProposals env) limit startAfter.
Proof.
  unfold foundProposals, eval. rewrite run_listProposals.
  destruct (orderedFallback (proposalsSources env)) as [[[proposals v2]|] consulted]; cbn [fst].
  - destruct (runPool env _) as [[rs|m] tr] eqn:Hpool; [|done]. cbn. intros [= <-].
    rewrite <-(evalPool_res_id env proposals v2 _ rs) by (unfold evalPool; by rewrite Hpool).
    apply fmap_sublist, sublist_List_filter.
  - cbn. intros [= <-]. apply sublist_nil_l.
Qed.

Lemma descendingIds_empty limit startBefore : descendingIds ∅ limit startBefore = [].
Proof.
  unfold descendingIds, keys. rewrite map_to_list_empty. cbn.
  destruct (limitNum limit) as [| |z|]; cbn; [done..| |done].
  destruct (z <? 0); apply take_nil.
Qed.

Lemma eval_reverseProposals_ids env limit startBefore responses :
  eval env (reverseProposals env limit startBefore) = Returned responses ->
  res_id <$> responses = Num <$> descendingIds (foundProposals env) limit startBefore.
Proof.
  unfold foundProposals, eval. rewrite run_reverseProposals.
  destruct (orderedFallback (proposalsSources env)) as [[[proposals v2]|] consulted]; cbn [fst].
  - destruct (runPool env _) as [[rs|m] tr] eqn:Hpool; [|done]. cbn. intros [= <-].
    apply (evalPool_res_id env proposals v2). unfold evalPool. by rewrite Hpool.
  - cbn. intros [= <-]. by rewrite descendingIds_empty.
Qed.

Lemma eval_openProposals_ids env address result :
  eval env (openProposals env address) = Returned result ->
  (fun item => item.1.(res_id)) <$> result
  `sublist_of` Num <$> ascendingIds (foundProposals env) None None.
Proof.
  unfold openProposals. rewrite eval_bind.
  destruct (eval env (listProposals env None None None)) as [proposals|m] eqn:Hlist; [|done].
  apply eval_listProposals_ids in Hlist.
  set (open := List.filter _ proposals).
  assert (res_id <$> open `sublist_of` Num <$> ascendingIds (foundProposals env) None None) as Hopen.
  { etrans; [|done]. apply fmap_sublist, sublist_List_filter. }
  rewrite eval_bind.
  destruct (eval env (if truthy address then _ else _)) as [votes|m]; [|done].
  rewrite eval_ret. intros [= <-].
  replace ((fun item => item.1.(res_id)) <$> _) with (res_id <$> open); [done|].
  destruct (if truthy address then votes else None) as [vs|].
  - rewrite fmap_imap. erewrite imap_ext; [by rewrite imap_const|done].
  - change (map ?f open) with (f <$> open). by rewrite <-list_fmap_compose.
Qed.

Lemma updateStatus_pending env proposal e :
  proposal.(status) = veto_timelock e ->
  isExpirationExpired env e = false ->
  updateStatus env proposal = proposal.
Proof. intros Hst Hexpired. unfold updateStatus. by rewrite Hst, Hexpired. Qed.

Lemma updateStatus_idempotent env proposal :
  updateStatus env (updateStatus env proposal) = updateStatus env proposal.
Proof.
  destruct (status proposal) as [s|e] eqn:Hst.
  - destruct (decide (s = StatusEnum.Open)) as [->|Hne].
    + unfold updateStatus at 2 3. rewrite Hst. cbn.
      destruct (isPassed env proposal) eqn:Hpassed.
      * destruct (veto proposal) as [v|]; [|by apply updateStatus_other]. cbn.
        destruct (isExpirationExpired env _) eqn:Hexpired; [by apply updateStatus_other|].
        by eapply updateStatus_pending.
      * destruct (isExpirationExpired env _ || isRejected env _) eqn:Hrejected;
          [by apply updateStatus_other|].
        unfold updateStatus. by rewrite Hst, Hpassed, Hrejected.
    + rewrite (updateStatus_other env proposal); [|rewrite Hst; congruence|by rewrite Hst].
      apply updateStatus_other; rewrite Hst; [congruence|done].
  - unfold updateStatus at 2 3. rewrite Hst. cbn.
    destruct (isExpirationExpired env e) eqn:Hexpired; [by apply updateStatus_other|].
    by eapply updateStatus_pending.
Qed.

(** C9: the formulas are deterministic: a formula without [Promise.all] has
    the one outcome of its sequential run, and each formula that awaits a pool
    of concurrent sub-evaluations ends in the same outcome under every
    schedule of the pool.  The ids of a returned sequence follow the page that
    was sorted and cut before the sub-evaluations were dispatched, whatever
    the schedule.  Deriving the status of an already derived record changes
    nothing. *)
Theorem formulas_deterministic env :
  (forall A (t : task A), deterministic env (call t)) /\
  (forall limit startAfter filter,
     deterministic env (listProposals env limit startAfter filter)) /\
  (forall limit startBefore, deterministic env (reverseProposals env limit startBefore)) /\
  (forall proposalId limit startAfter,
     deterministic env (listVotes env proposalId limit startAfter)) /\
  (forall address, deterministic env (openProposals env address)) /\
  (forall limit startAfter filter responses,
     exec env (listProposals env limit startAfter filter) (Returned responses) ->
     res_id <$> responses
     `sublist_of` Num <$> ascendingIds (foundProposals env) limit startAfter) /\
  (forall limit startBefore responses,
     exec env (reverseProposals env limit startBefore) (Returned responses) ->
     res_id <$> responses = Num <$> descendingIds (foundProposals env) limit startBefore) /\
  (forall address result,
     exec env (openProposals env address) (Returned result) ->
     (fun item => item.1.(res_id)) <$> result
     `sublist_of` Num <$> ascendingIds (foundProposals env) None None) /\
  (forall proposal, updateStatus env (updateStatus env proposal) = updateStatus env proposal).
Proof.
  repeat split.
  1,2: by apply unanimous_deterministic, unanimous_call.
  1,2: by apply unanimous_deterministic, unanimous_listProposals.
  1,2: by apply unanimous_deterministic, unanimous_reverseProposals.
  1,2: by apply unanimous_deterministic, unanimous_listVotes.
  1,2: by apply unanimous_deterministic, unanimous_openProposals.
  - intros limit startAfter filter responses Hexec.
    apply exec_eval in Hexec; [|apply unanimous_listProposals].
    by apply (eval_listProposals_ids env limit startAfter filter).
  - intros limit startBefore responses Hexec.
    apply exec_eval in Hexec; [|apply unanimous_reverseProposals].
    by apply eval_reverseProposals_ids.
  - intros address result Hexec.
    apply exec_eval in Hexec; [|apply unanimous_openProposals].
    by apply (eval_openProposals_ids env address).
  - apply updateStatus_idempotent.
Qed.

(** ** Argument guards *)

Lemma invalidId_validIdNum id : invalidId id = false -> validIdNum (NumberArg id) = true.
Proof.
  unfold invalidId, validIdNum.
  by destruct (truthy id), (isNaN (NumberArg id)), (lt (NumberArg id) (Num 0)).
Qed.

(** An invalid [id] makes [proposal] throw before it queries anything. *)
Lemma proposal_guard env id : invalidId id = true -> proposal env id = throw "missing `id`".
Proof. intros Hid. unfold proposal. by rewrite Hid. Qed.

(** A valid [id] makes [proposal] return. *)
Lemma proposal_returns env id : invalidId id = false -> returns env (proposal env id).
Proof.
  intros Hid. unfold returns, evalT. rewrite runT_proposal by done.
  destruct (orderedFallback (proposalSources env id)) as [[[record v2]|] consulted]; [|by eexists].
  pose proof (intoResponse_returns env record (NumberArg id) v2 (invalidId_validIdNum id Hid)) as Hr.
  unfold evalT in Hr. destruct (runT env (intoResponse _ _ _ _)) as [r tr].
  cbn in Hr. subst r. by eexists.
Qed.

(** An invalid [proposalId] makes [listVotes] throw before it queries
    anything. *)
Lemma listVotes_guard env proposalId limit startAfter :
  invalidId proposalId = true ->
  listVotes env proposalId limit startAfter = throw "missing `proposalId`".
Proof. intros Hid. unfold listVotes. by rewrite Hid. Qed.

(** [vote] throws before it queries anything when [proposalId] or [voter] is
    missing. *)
Lemma vote_guard env proposalId voter :
  (truthy proposalId = false -> vote env proposalId voter = throw "missing `proposalId`") /\
  (truthy proposalId = true -> truthy voter = false ->
   vote env proposalId voter = throw "missing `voter`").
Proof. unfold vote. split; [by intros ->|by intros -> ->]. Qed.

(** With both arguments present [vote] returns, whatever [proposalId] reads
    as, and its first step is a query. *)
Lemma vote_unguarded env proposalId voter :
  truthy proposalId = true ->
  truthy voter = true ->
  returns env (vote env proposalId voter) /\
  exists k,
    vote env proposalId voter =
    TAwait (GetTransformationMatch KVoteCast env.(contractAddress)
              ("voteCast:" +:+ text voter +:+ ":" +:+ text proposalId)) k.
Proof.
  intros Hid Hvoter. split.
  - by apply vote_returns.
  - unfold vote. rewrite Hid, Hvoter. by eexists.
Qed.

(** ** The configuration and the proposal counter *)

Lemma double_safe z : Z.abs z < 2 ^ 53 -> double z = Num z.
Proof. intros Hz. unfold double. cbv zeta. by rewrite (proj2 (Z.ltb_lt _ _) Hz). Qed.

Lemma double_successor n : 0 <= n < 2 ^ 53 -> double (n + 1) = Num (n + 1).
Proof.
  intros Hn. destruct (decide (n + 1 = 2 ^ 53)) as [->|Hne]; [by vm_compute|].
  apply double_safe. lia.
Qed.

(** X1: [config] returns the ["config_v2"] item when there is one and reads
    the legacy ["config"] item only when there is none; it never throws.
    [dao] makes the same calls and returns the [dao] field of that config,
    nothing when there is no config. *)
Theorem config_prefers_v2 env :
  runT env (config env) =
  match env.(get) KConfig env.(contractAddress) [KeyS "config_v2"] with
  | Some c =>
      (Returned (Some c), [Called (Get KConfig env.(contractAddress) [KeyS "config_v2"])])
  | None =>
      (Returned (env.(get) KConfig env.(contractAddress) [KeyS "config"]),
       [Called (Get KConfig env.(contractAddress) [KeyS "config_v2"]);
        Called (Get KConfig env.(contractAddress) [KeyS "config"])])
  end /\
  runT env (dao env) =
  (outcome_map (fun c => c ?> dao_) (evalT env (config env)), traceT env (config env)).
Proof.
  assert (runT env (config env) =
          match env.(get) KConfig env.(contractAddress) [KeyS "config_v2"] with
          | Some c =>
              (Returned (Some c), [Called (Get KConfig env.(contractAddress) [KeyS "config_v2"])])
          | None =>
              (Returned (env.(get) KConfig env.(contractAddress) [KeyS "config"]),
               [Called (Get KConfig env.(contractAddress) [KeyS "config_v2"]);
                Called (Get KConfig env.(contractAddress) [KeyS "config"])])
          end) as Hconfig.
  { unfold config. rewrite runT_nullish, !runT_await. cbn [answer].
    by destruct (get env KConfig _ _). }
  split; [done|].
  unfold dao, evalT, traceT. rewrite runT_bind, Hconfig.
  by destruct (get env KConfig _ [KeyS "config_v2"]).
Qed.

(** X2: [nextProposalId] is [proposalCount] plus one, from a single read of
    ["proposal_count"]: 1 on a store that has no count yet, and [n + 1] on a
    store whose count [n] is below [2 ^ 53].  The sum is a sum of doubles:
    at a count of [2 ^ 53] it rounds back to [2 ^ 53], so the next id is the
    count itself. *)
Theorem nextProposalId_successor env :
  let stored := env.(get) KNumber env.(contractAddress) [KeyS "proposal_count"] in
  runT env (proposalCount env) =
  (Returned (default (Num 0) stored),
   [Called (Get KNumber env.(contractAddress) [KeyS "proposal_count"])]) /\
  runT env (nextProposalId env) =
  (outcome_map (fun n => add n (Num 1)) (evalT env (proposalCount env)),
   traceT env (proposalCount env)) /\
  (stored = None -> evalT env (nextProposalId env) = Returned (Num 1)) /\
  (forall n,
     stored = Some (Num n) -> 0 <= n < 2 ^ 53 ->
     evalT env (nextProposalId env) = Returned (Num (n + 1)) /\
     lt (Num n) (Num (n + 1)) = true) /\
  (stored = Some (Num (2 ^ 53)) ->
   evalT env (nextProposalId env) = Returned (Num (2 ^ 53))).
Proof.
  cbv zeta. unfold nextProposalId, proposalCount, evalT, traceT.
  rewrite !runT_bind, !runT_await. cbn [answer denote fst snd outcome_map].
  split; [done|]. split; [done|]. split; [by intros ->|]. split.
  - intros n -> Hn. cbn. rewrite double_successor by done.
    split; [done|lia].
  - intros ->. by vm_compute.
Qed.

(** ** The id guard of the guarded formulas *)

Lemma listVotes_returns env proposalId limit startAfter :
  invalidId proposalId = false ->
  exists votes, eval env (listVotes env proposalId limit startAfter) = Returned votes.
Proof.
  intros Hid.
  destruct (env.(getTransformationMatches) KVoteCast env.(contractAddress)
              ("voteCast:*:" +:+ text proposalId)
              (if truthy startAfter
               then Some (Op_gt ("voteCast:" +:+ text startAfter +:+ ":" +:+ text proposalId))
               else None)
              (if truthy limit then Some (limitNum limit) else None)) as [matches|] eqn:Hmatches.
  - unfold listVotes. rewrite Hid, eval_bind, eval_await. cbn [answer]. cbn [denote] in *.
    rewrite Hmatches. cbn [fmap option_fmap option_map].
    rewrite eval_bind, eval_ret. by eexists.
  - rewrite eval_listVotes_raw by done. by eexists.
Qed.

(** X3: [proposal], [proposalCreatedAt], [voteCount] and [listVotes] check
    their id the same way.  With an id that is missing, empty, not a number
    or negative they throw the error that names the argument, before any
    accessor is called; with any other id they return. *)
Theorem guarded_formulas env id :
  (invalidId id = true ->
   runT env (proposal env id) = (Thrown "missing `id`", []) /\
   runT env (proposalCreatedAt env id) = (Thrown "missing `id`", []) /\
   runT env (voteCount env id) = (Thrown "missing `proposalId`", []) /\
   forall limit startAfter,
     run env (listVotes env id limit startAfter) = (Thrown "missing `proposalId`", [])) /\
  (invalidId id = false ->
   returns env (proposal env id) /\
   returns env (proposalCreatedAt env id) /\
   returns env (voteCount env id) /\
   forall limit startAfter,
     exists votes, eval env (listVotes env id limit startAfter) = Returned votes).
Proof.
  split; intros Hid.
  - unfold proposal, proposalCreatedAt, voteCount, listVotes. by rewrite Hid.
  - split; [by apply proposal_returns|]. split; [|split].
    + unfold returns. rewrite evalT_proposalCreatedAt, Hid. by eexists.
    + unfold voteCount. rewrite Hid.
      apply returns_bind; [apply returns_await|]. intros; apply returns_ret.
    + intros limit startAfter. by apply listVotes_returns.
Qed.

(** X4: for a valid id [proposalCreatedAt] asks the transformation index
    first, then the raw v2 schema, then the raw v1 schema, each only when the
    ones before gave no date, and returns the first date found as an ISO
    string, nothing when there is none. *)
Theorem proposalCreatedAt_resolution env id :
  invalidId id = false ->
  runT env (proposalCreatedAt env id) =
  let '(found, consulted) := orderedFallback (createdAtSources env id) in
  (Returned (found ?> (fun d => toISOString d.1)), consulted).
Proof.
  intros Hid. unfold proposalCreatedAt, createdAtSources. rewrite Hid.
  rewrite runT_bind, !runT_nullish, !runT_await. cbn [answer orderedFallback].
  destruct (getDateFirstTransformed env _ _ None) as [d|]; [done|].
  destruct (getDateKeyFirstSet env _ [KeyS "proposals_v2"; _]) as [d|]; [done|].
  by destruct (getDateKeyFirstSet env _ [KeyS "proposals"; _]) as [d|].
Qed.

(** X5: for a valid id [proposal] returns nothing exactly when neither the
    transformation index nor either raw schema has the record; a response it
    returns carries the id as a number. *)
Theorem proposal_found_iff env id :
  invalidId id = false ->
  exists result,
    evalT env (proposal env id) = Returned result /\
    (result = None <->
     env.(getTransformationMatch) KProposal env.(contractAddress) ("proposal:" +:+ text id) = None /\
     env.(get) KProposal env.(contractAddress) [KeyS "proposals_v2"; KeyN (NumberArg id)] = None /\
     env.(get) KProposal env.(contractAddress) [KeyS "proposals"; KeyN (NumberArg id)] = None) /\
    (forall r, result = Some r -> r.(res_id) = NumberArg id).
Proof.
  intros Hid. pose proof (invalidId_validIdNum id Hid) as Hvalid.
  unfold evalT. rewrite runT_proposal by done. unfold proposalSources.
  cbn [orderedFallback]. cbn [denote].
  destruct (getTransformationMatch env KProposal _ _) as [m|]; cbn [fmap option_fmap option_map].
  { pose proof (intoResponse_returns env m.(value) (NumberArg id) false Hvalid) as Hr.
    unfold evalT in Hr. destruct (runT env (intoResponse _ _ _ _)) as [r tr].
    cbn in Hr. subst r. eexists. split; [done|]. split.
    - split; [done|]. by intros [? _].
    - by intros r [= <-]. }
  destruct (get env KProposal _ [KeyS "proposals_v2"; _]) as [record|].
  { pose proof (intoResponse_returns env record (NumberArg id) true Hvalid) as Hr.
    unfold evalT in Hr. destruct (runT env (intoResponse _ _ _ _)) as [r tr].
    cbn in Hr. subst r. eexists. split; [done|]. split.
    - split; [done|]. by intros (_ & ? & _).
    - by intros r [= <-]. }
  destruct (get env KProposal _ [KeyS "proposals"; _]) as [record|].
  { pose proof (intoResponse_returns env record (NumberArg id) false Hvalid) as Hr.
    unfold evalT in Hr. destruct (runT env (intoResponse _ _ _ _)) as [r tr].
    cbn in Hr. subst r. eexists. split; [done|]. split.
    - split; [done|]. by intros (_ & _ & ?).
    - by intros r [= <-]. }
  by exists None.
Qed.

(** ** What a response keeps of the stored record *)

Lemma updateStatus_fields env proposal :
  (updateStatus env proposal).(expiration) = proposal.(expiration) /\
  (updateStatus env proposal).(veto) = proposal.(veto) /\
  (updateStatus env proposal).(rest) = proposal.(rest).
Proof.
  unfold updateStatus, set_status. by repeat case_match.
Qed.

Lemma intoResponse_inv env proposal id v2 r :
  evalT env (intoResponse env proposal id v2) = Returned r ->
  validIdNum id = true /\ r = responseOf env proposal id v2.
Proof.
  rewrite evalT_intoResponse. destruct (validIdNum id); [|done]. by intros [= <-].
Qed.

(** X6: the response of [intoResponse] carries the id it was given and the
    stored record with nothing but its status changed; its [createdAt] is what
    [proposalCreatedAt] returns for the printed id. *)
Theorem intoResponse_keeps_record env proposal id v2 r :
  evalT env (intoResponse env proposal id v2) = Returned r ->
  r.(res_id) = id /\
  r.(res_proposal).(expiration) = proposal.(expiration) /\
  r.(res_proposal).(veto) = proposal.(veto) /\
  r.(res_proposal).(rest) = proposal.(rest) /\
  evalT env (proposalCreatedAt env (Some (toString id))) = Returned r.(createdAt).
Proof.
  intros [Hvalid ->]%intoResponse_inv. cbn.
  destruct (updateStatus_fields env proposal) as (He & Hv & Hr).
  repeat split; [done..|].
  by rewrite evalT_proposalCreatedAt, invalidId_toString, Hvalid.
Qed.

(** X7: the status of a response is the stored status, or one step further
    in the life of the proposal: an open proposal may have become passed,
    rejected or timelocked for a veto, a timelocked one may have become
    passed; no other change is ever made. *)
Theorem status_transitions env proposal id v2 r :
  evalT env (intoResponse env proposal id v2) = Returned r ->
  r.(res_proposal).(status) = proposal.(status) \/
  (proposal.(status) = Enum StatusEnum.Open /\
   (r.(res_proposal).(status) = Enum StatusEnum.Passed \/
    r.(res_proposal).(status) = Enum StatusEnum.Rejected \/
    exists v,
      proposal.(veto) = Some v /\
      r.(res_proposal).(status) =
      veto_timelock (expirationPlusDuration proposal.(expiration) v.(timelock_duration)))) \/
  (exists e,
     proposal.(status) = veto_timelock e /\
     r.(res_proposal).(status) = Enum StatusEnum.Passed).
Proof.
  intros [_ ->]%intoResponse_inv. cbn.
  destruct (status proposal) as [s|e] eqn:Hst.
  - destruct (decide (s = StatusEnum.Open)) as [->|Hne].
    + rewrite updateStatus_open by done.
      destruct (isPassed env proposal).
      * destruct (veto proposal) as [v|]; [|by right; left; split; [|left]]. cbn.
        destruct (isExpirationExpired env _); [by right; left; split; [|left]|].
        right; left. split; [done|]. right; right. by exists v.
      * destruct (isExpirationExpired env _ || isRejected env _); [|by left].
        right; left. split; [done|]. by right; left.
    + left. rewrite updateStatus_other; [done|rewrite Hst; congruence|by rewrite Hst].
  - rewrite (updateStatus_veto_timelock env proposal e) by done.
    destruct (isExpirationExpired env e); [|by left].
    right; right. by exists e.
Qed.

Lemma statusDateOf_transformed env id v2 where_ :
  is_Some (env.(getDateFirstTransformed) env.(contractAddress) ("proposal:" +:+ toString id) (Some where_)) ->
  statusDateOf env id v2 where_ =
  env.(getDateFirstTransformed) env.(contractAddress) ("proposal:" +:+ toString id) (Some where_)
  ?> toISOString.
Proof. unfold statusDateOf. cbn. by intros [d ->]. Qed.

(** X8: the schema flag handed to [intoResponse] only matters for the raw
    lookups of the status dates.  The responses for the two values of the flag
    agree on the id, the record and [createdAt]; they are equal when the
    derived status is [Open], and when the transformation index has the
    status dates. *)
Theorem schema_only_affects_status_dates env proposal id r2 r1 :
  evalT env (intoResponse env proposal id true) = Returned r2 ->
  evalT env (intoResponse env proposal id false) = Returned r1 ->
  r2.(res_id) = r1.(res_id) /\
  r2.(res_proposal) = r1.(res_proposal) /\
  r2.(createdAt) = r1.(createdAt) /\
  (r1.(res_proposal).(status) = Enum StatusEnum.Open -> r2 = r1) /\
  ((forall where_,
      is_Some (env.(getDateFirstTransformed) env.(contractAddress)
                 ("proposal:" +:+ toString id) (Some where_))) ->
   r2 = r1).
Proof.
  intros [_ ->]%intoResponse_inv [_ ->]%intoResponse_inv. cbn.
  repeat split; [done..| |].
  - intros Hopen. unfold responseOf. rewrite Hopen. by cbn.
  - intros Hindex. unfold responseOf. by rewrite !statusDateOf_transformed.
Qed.

(** X9: the status dates of a response follow its status: [executedAt] is
    only there for an executed proposal (also one whose execution failed),
    [closedAt] only for a closed one, so never both, and [completedAt] never
    for an open one. *)
Theorem status_dates_follow_status env proposal id v2 r :
  evalT env (intoResponse env proposal id v2) = Returned r ->
  (is_Some r.(executedAt) ->
   r.(res_proposal).(status) = Enum StatusEnum.Executed \/
   r.(res_proposal).(status) = Enum StatusEnum.ExecutionFailed) /\
  (is_Some r.(closedAt) -> r.(res_proposal).(status) = Enum StatusEnum.Closed) /\
  (is_Some r.(completedAt) -> r.(res_proposal).(status) <> Enum StatusEnum.Open) /\
  (r.(executedAt) = None \/ r.(closedAt) = None).
Proof.
  intros [_ ->]%intoResponse_inv. cbn.
  destruct (status (updateStatus env proposal)) as [[]|e]; cbn;
    repeat split; try (by intros [? [=]]); try done; auto.
Qed.

(** ** The two listings *)

Lemma eval_reverseProposals env limit startBefore proposals v2 :
  (orderedFallback (proposalsSources env)).1 = Some (proposals, v2) ->
  eval env (reverseProposals env limit startBefore) =
  evalPool env
    (map (fun id => intoResponseOf env (proposals !! id) (Num id) v2)
       (descendingIds proposals limit startBefore)).
Proof.
  intros Hfound. unfold eval, evalPool. rewrite run_reverseProposals.
  destruct (orderedFallback (proposalsSources env)) as [found consulted].
  cbn in Hfound. subst found. by destruct (runPool env _).
Qed.

Lemma eval_listings_nothing env limit cursor filter :
  (orderedFallback (proposalsSources env)).1 = None ->
  eval env (listProposals env limit cursor filter) = Returned [] /\
  eval env (reverseProposals env limit cursor) = Returned [].
Proof.
  intros Hfound. unfold eval. rewrite run_listProposals, run_reverseProposals.
  destruct (orderedFallback (proposalsSources env)) as [found consulted].
  cbn in Hfound. by subst found.
Qed.

Lemma slice0_nil {A} n : slice0 (@nil A) n = [].
Proof. destruct n as [| |z|]; cbn; [done..| |done]. destruct (z <? 0); apply take_nil. Qed.

Lemma ascendingIds_empty limit startAfter : ascendingIds ∅ limit startAfter = [].
Proof. unfold ascendingIds, keys. rewrite map_to_list_empty. cbn. apply slice0_nil. Qed.

(** X10: [reverseProposals] pages like [listProposals], downwards and
    without a status filter: over proposals with non-negative ids it returns
    one response for each id strictly less than the [startBefore] cursor, in
    descending order, truncated to [limit] after that. *)
Theorem reverseProposals_page env limit startBefore proposals v2 c n :
  (orderedFallback (proposalsSources env)).1 = Some (proposals, v2) ->
  set_Forall (fun id => 0 <= id) (dom proposals) ->
  reads_as limit n ->
  reads_as startBefore c ->
  cursor_fits (dom proposals) c ->
  exists page responses,
    descending_page (dom proposals) c n page /\
    Forall2 (fun id r =>
               exists record,
                 proposals !! id = Some record /\
                 evalT env (intoResponse env record (Num id) v2) = Returned r)
      page responses /\
    eval env (reverseProposals env limit startBefore) = Returned responses.
Proof.
  intros Hfound Hids Hn Hc Hfits.
  destruct (evalPool_intoResponseOf env proposals v2 (descendingIds proposals limit startBefore))
    as (responses & Hall & Hpool).
  { intros id Hin%descendingIds_dom. split; [done|by apply Hids]. }
  exists (descendingIds proposals limit startBefore), responses.
  split; [by apply descendingIds_page|]. split; [done|].
  by rewrite (eval_reverseProposals _ _ _ proposals v2), Hpool.
Qed.

Lemma StronglySorted_weaken {A} (R S : relation A) l :
  (forall a b, R a b -> S a b) -> StronglySorted R l -> StronglySorted S l.
Proof.
  intros HRS. induction 1 as [|a l Hl IH Ha]; constructor; [done|].
  eapply Forall_impl; [done|]. intros b. apply HRS.
Qed.

Lemma StronglySorted_sublist {A} (R : relation A) (l k : list A) :
  k `sublist_of` l -> StronglySorted R l -> StronglySorted R k.
Proof.
  intros Hsub Hl. revert k Hsub.
  induction Hl as [|a l Hl IH Ha]; intros k Hsub.
  - apply sublist_nil_r in Hsub as ->. constructor.
  - apply sublist_cons_r in Hsub as [Hsub|(k' & -> & Hsub)]; [by apply IH|].
    constructor; [by apply IH|].
    apply Forall_forall. intros b Hb. eapply Forall_forall in Ha; [done|].
    by eapply elem_of_sublist.
Qed.

Lemma sort_descending_reverse (l : list Z) :
  NoDup l -> sort (fun a b => b - a) l = reverse (sort (fun a b => a - b) l).
Proof.
  intros Hnd.
  destruct (sort_ascending l Hnd) as [Hasc _], (sort_descending l Hnd) as [Hdesc _].
  apply (StronglySorted_unique_strong Z.gt); [lia|done| |].
  - apply (StronglySorted_weaken (flip Z.lt)); [unfold flip; lia|].
    apply Sorted_StronglySorted; [intros a b c; unfold flip; lia|].
    by apply Sorted_reverse, StronglySorted_Sorted.
  - unfold sort. by rewrite reverse_Permutation, !merge_sort_Permutation.
Qed.

Lemma descendingIds_reverse proposals :
  descendingIds proposals None None = reverse (ascendingIds proposals None None).
Proof.
  unfold descendingIds, ascendingIds. cbn.
  rewrite !List_filter_true by done. apply sort_descending_reverse, NoDup_keys.
Qed.

Lemma evalPool_thrower {X} env (ts : list (task X)) t m :
  t ∈ ts -> evalT env t = Thrown m -> exists m', evalPool env ts = Thrown m'.
Proof.
  induction ts as [|t' ts IH]; [by inv 1|]. rewrite evalPool_cons.
  inv 1 as [|? ? ? Hin]; intros Ht.
  - rewrite Ht. by eexists.
  - destruct (IH Hin Ht) as [m' ->]. destruct (evalT env t'); by eexists.
Qed.

Lemma evalPool_reverse {X} env (ts : list (task X)) m0 :
  (forall t m, t ∈ ts -> evalT env t = Thrown m -> m = m0) ->
  evalPool env (reverse ts) = outcome_map reverse (evalPool env ts).
Proof.
  intros Hthrown. destruct (evalPool env ts) as [xs|m] eqn:Hpool; cbn.
  - apply evalPool_Returned, Forall2_reverse. by apply evalPool_Returned.
  - apply evalPool_Thrown in Hpool as (t & Hin & Ht).
    pose proof (Hthrown t m Hin Ht) as ->.
    destruct (evalPool_thrower env (reverse ts) t m0) as [m' Hm']; [by apply elem_of_reverse|done|].
    rewrite Hm'. apply evalPool_Thrown in Hm' as (t' & Hin' & Ht').
    rewrite elem_of_reverse in Hin'. by rewrite (Hthrown t' m' Hin' Ht').
Qed.

(** X11: with no cursor and no limit [reverseProposals] is [listProposals]
    backwards: the same responses in the opposite order, and the same error
    when a response cannot be made. *)
Theorem reverseProposals_reverses_listing env :
  eval env (reverseProposals env None None) =
  outcome_map reverse (eval env (listProposals env None None None)).
Proof.
  destruct (orderedFallback (proposalsSources env)).1 as [[proposals v2]|] eqn:Hfound.
  - rewrite (eval_reverseProposals _ _ _ proposals v2), (eval_listProposals _ _ _ _ proposals v2)
      by done.
    rewrite descendingIds_reverse.
    change (map ?f (reverse ?l)) with (f <$> reverse l). rewrite fmap_reverse.
    rewrite (evalPool_reverse _ _ "missing `id`").
    + destruct (evalPool env _) as [rs|m]; cbn; [|done]. by rewrite List_filter_true.
    + intros t m (id & -> & Hin)%list_elem_of_fmap. apply intoResponseOf_thrown.
      by eapply ascendingIds_dom.
  - by destruct (eval_listings_nothing env None None None Hfound) as [-> ->].
Qed.

Lemma evalPool_responses_Thrown env (proposals : gmap Z SingleChoiceProposal) v2 page m :
  (forall id, id ∈ page -> id ∈ dom proposals) ->
  evalPool env (map (fun id => intoResponseOf env (proposals !! id) (Num id) v2) page) = Thrown m
  <-> m = "missing `id`" /\ Exists (fun id => id < 0) page.
Proof.
  intros Hpage.
  assert (forall m', evalPool env (map (fun id => intoResponseOf env (proposals !! id) (Num id) v2) page) = Thrown m' ->
                     m' = "missing `id`" /\ Exists (fun id => id < 0) page) as Hthrown.
  { intros m' (t & (id & -> & Hin)%list_elem_of_fmap & Ht)%evalPool_Thrown.
    split; [by eapply intoResponseOf_thrown; [apply Hpage|]|].
    apply Exists_exists. exists id. split; [done|].
    pose proof (Hpage id Hin) as [record Hrecord]%elem_of_dom.
    rewrite Hrecord in Ht. cbn in Ht. rewrite evalT_intoResponse in Ht.
    destruct (validIdNum (Num id)) eqn:Hvalid; [done|].
    destruct (Z.le_gt_cases 0 id) as [Hle%validIdNum_Num|]; [congruence|done]. }
  split; [apply Hthrown|].
  intros [-> (id & Hin & Hneg)%Exists_exists].
  pose proof (Hpage id Hin) as [record Hrecord]%elem_of_dom.
  destruct (evalPool_thrower env
              (map (fun id => intoResponseOf env (proposals !! id) (Num id) v2) page)
              (intoResponseOf env (proposals !! id) (Num id) v2) "missing `id`") as [m' Hm'].
  - apply list_elem_of_fmap. by exists id.
  - rewrite Hrecord. cbn. rewrite evalT_intoResponse.
    destruct (validIdNum (Num id)) eqn:Hvalid; [|done].
    apply validIdNum_Num in Hvalid. lia.
  - rewrite Hm'. by destruct (Hthrown m' Hm') as [-> _].
Qed.

(** X12: a listing fails only through the id guard of [proposalCreatedAt]:
    [listProposals] and [reverseProposals] throw exactly when their page of
    ids has a negative id, and the error is then the one of a missing id,
    whatever the status filter. *)
Theorem listing_throws_iff env limit cursor filter proposals v2 m :
  (orderedFallback (proposalsSources env)).1 = Some (proposals, v2) ->
  (eval env (listProposals env limit cursor filter) = Thrown m
   <-> m = "missing `id`" /\ Exists (fun id => id < 0) (ascendingIds proposals limit cursor)) /\
  (eval env (reverseProposals env limit cursor) = Thrown m
   <-> m = "missing `id`" /\ Exists (fun id => id < 0) (descendingIds proposals limit cursor)).
Proof.
  intros Hfound. split.
  - rewrite (eval_listProposals _ _ _ _ proposals v2) by done.
    rewrite <-(evalPool_responses_Thrown env proposals v2) by apply ascendingIds_dom.
    destruct (evalPool env _); cbn; split; congruence.
  - rewrite (eval_reverseProposals _ _ _ proposals v2) by done.
    by rewrite <-(evalPool_responses_Thrown env proposals v2) by apply descendingIds_dom.
Qed.

Lemma limitNum_none limit :
  truthy limit = true ->
  NumberArg limit = NaN \/ (exists z, NumberArg limit = Num z /\ z <= 0) ->
  limitNum limit = NaN \/ limitNum limit = Num 0.
Proof.
  unfold limitNum. intros -> [->|(z & -> & Hz)]; [by left|right]. cbn.
  destruct (Z.ltb_spec 0 z); [lia|done].
Qed.

Lemma slice0_none {A} (l : list A) n : n = NaN \/ n = Num 0 -> slice0 l n = [].
Proof. by intros [->| ->]. Qed.

Lemma List_filter_false {A} (f : A -> bool) l : (forall x, f x = false) -> List.filter f l = [].
Proof. intros Hf. induction l as [|x l IH]; cbn; [done|]. by rewrite Hf. Qed.

(** X13: a page argument that does not read well empties the listing
    instead of failing it: with a [limit] that is not a number or not
    positive, or with a cursor that is not a number, [listProposals] and
    [reverseProposals] return the empty list. *)
Theorem unreadable_page_arguments env limit cursor filter :
  (truthy limit = true /\
   (NumberArg limit = NaN \/ exists z, NumberArg limit = Num z /\ z <= 0)) \/
  (truthy cursor = true /\ NumberArg cursor = NaN) ->
  eval env (listProposals env limit cursor filter) = Returned [] /\
  eval env (reverseProposals env limit cursor) = Returned [].
Proof.
  intros Hargs.
  destruct (orderedFallback (proposalsSources env)).1 as [[proposals v2]|] eqn:Hfound;
    [|by apply eval_listings_nothing].
  rewrite (eval_reverseProposals _ _ _ proposals v2), (eval_listProposals _ _ _ _ proposals v2)
    by done.
  assert (ascendingIds proposals limit cursor = [] /\
          descendingIds proposals limit cursor = []) as [-> ->]; [|done].
  unfold ascendingIds, descendingIds.
  destruct Hargs as [[Hlimit Hnum]|[Hcursor Hnan]].
  - split; by apply slice0_none, limitNum_none.
  - unfold startAfterNum, startBeforeNum. rewrite Hcursor, Hnan. cbn.
    rewrite !List_filter_false by done. by rewrite slice0_nil.
Qed.

(** X14: a transformation index that is there but empty is taken as the
    answer: both listings return the empty list after that one call, and the
    raw schemas are not read. *)
Theorem empty_index_hides_raw env limit cursor filter :
  env.(getTransformationMap) KProposal env.(contractAddress) "proposal" = Some ∅ ->
  run env (listProposals env limit cursor filter) =
  (Returned [], [Called (GetTransformationMap KProposal env.(contractAddress) "proposal")]) /\
  run env (reverseProposals env limit cursor) =
  (Returned [], [Called (GetTransformationMap KProposal env.(contractAddress) "proposal")]).
Proof.
  intros Hindex. rewrite run_listProposals, run_reverseProposals.
  unfold proposalsSources. cbn [orderedFallback]. cbn [denote] in *. rewrite Hindex.
  by rewrite ascendingIds_empty, descendingIds_empty.
Qed.

Lemma StronglySorted_slice0 {A} (R : relation A) (l : list A) n :
  StronglySorted R l -> StronglySorted R (slice0 l n).
Proof.
  intros Hl. destruct n as [| |z|]; cbn; [constructor..| |done].
  destruct (z <? 0); (eapply StronglySorted_sublist; [apply sublist_take|done]).
Qed.

Lemma ascendingIds_sorted proposals limit startAfter :
  StronglySorted Z.lt (ascendingIds proposals limit startAfter).
Proof.
  apply StronglySorted_slice0, StronglySorted_List_filter.
  by apply sort_ascending, NoDup_keys.
Qed.

Lemma descendingIds_sorted proposals limit startBefore :
  StronglySorted Z.gt (descendingIds proposals limit startBefore).
Proof.
  apply StronglySorted_slice0, StronglySorted_List_filter.
  by apply sort_descending, NoDup_keys.
Qed.

Lemma length_slice0_limitNum {A} (l : list A) limit n :
  reads_as limit (Some n) -> (length (slice0 l (limitNum limit)) <= Z.to_nat n)%nat.
Proof.
  intros Hn. rewrite (slice0_limitNum _ limit (Some n)) by done. cbn. rewrite length_take. lia.
Qed.

(** X15: whatever the arguments, the responses of [listProposals] come with
    strictly increasing ids and those of [reverseProposals] with strictly
    decreasing ids, so no proposal is listed twice; and a listing never holds
    more than [limit] responses. *)
Theorem listings_ordered_and_bounded env limit cursor filter :
  (forall responses,
     eval env (listProposals env limit cursor filter) = Returned responses ->
     StronglySorted (fun a b => lt a b = true) (res_id <$> responses) /\
     forall n, reads_as limit (Some n) -> (length responses <= Z.to_nat n)%nat) /\
  (forall responses,
     eval env (reverseProposals env limit cursor) = Returned responses ->
     StronglySorted (fun a b => gt a b = true) (res_id <$> responses) /\
     forall n, reads_as limit (Some n) -> (length responses <= Z.to_nat n)%nat).
Proof.
  split; intros responses Hresponses.
  - pose proof (eval_listProposals_ids _ _ _ _ _ Hresponses) as Hids. split.
    + eapply StronglySorted_sublist; [exact Hids|].
      eapply StronglySorted_fmap; [|apply ascendingIds_sorted].
      intros a b Hab. cbn. by apply Z.ltb_lt.
    + intros n Hn. apply sublist_length in Hids. rewrite !length_fmap in Hids.
      etrans; [exact Hids|]. by apply length_slice0_limitNum.
  - pose proof (eval_reverseProposals_ids _ _ _ _ Hresponses) as Hids. split.
    + rewrite Hids. eapply StronglySorted_fmap; [|apply descendingIds_sorted].
      intros a b Hab. cbn. apply Z.ltb_lt. lia.
    + intros n Hn. apply (f_equal length) in Hids. rewrite !length_fmap in Hids.
      rewrite Hids. by apply length_slice0_limitNum.
Qed.

(** X16: the status filter is a cut of the unfiltered listing and touches
    nothing else: [listProposals] with a filter is [listProposals] without
    one, with the responses the filter rejects taken out.  Only the filter
    ['passed'] rejects anything (any other value lists everything), and what
    it keeps is passed, executed or failed in execution. *)
Theorem status_filter_of_listing env limit cursor filter :
  eval env (listProposals env limit cursor filter) =
  outcome_map (List.filter (keptBy filter)) (eval env (listProposals env limit cursor None)) /\
  (filter <> Some "passed" ->
   eval env (listProposals env limit cursor filter) =
   eval env (listProposals env limit cursor None)) /\
  (forall responses,
     eval env (listProposals env limit cursor (Some "passed")) = Returned responses ->
     Forall (fun r =>
               r.(res_proposal).(status) = Enum StatusEnum.Passed \/
               r.(res_proposal).(status) = Enum StatusEnum.Executed \/
               r.(res_proposal).(status) = Enum StatusEnum.ExecutionFailed) responses).
Proof.
  assert (forall f,
            eval env (listProposals env limit cursor f) =
            outcome_map (List.filter (keptBy f))
              (eval env (listProposals env limit cursor None))) as Hfilter.
  { intros f.
    destruct (orderedFallback (proposalsSources env)).1 as [[proposals v2]|] eqn:Hfound.
    - rewrite !(eval_listProposals _ _ _ _ proposals v2) by done.
      destruct (evalPool env _) as [rs|m]; cbn; [|done].
      by rewrite (List_filter_true (keptBy None)).
    - by destruct (eval_listings_nothing env limit cursor f Hfound) as [-> _],
        (eval_listings_nothing env limit cursor None Hfound) as [-> _]. }
  split; [apply Hfilter|]. split.
  - intros Hother. rewrite Hfilter.
    destruct (eval env (listProposals env limit cursor None)) as [rs|m]; cbn; [|done].
    rewrite List_filter_true; [done|].
    intros r. unfold keptBy. by rewrite bool_decide_eq_false_2.
  - intros responses. rewrite Hfilter.
    destruct (eval env (listProposals env limit cursor None)) as [rs|m]; cbn; [|done].
    intros [= <-]. apply Forall_forall. intros r [_ Hkept]%elem_of_List_filter.
    unfold keptBy in Hkept. rewrite bool_decide_eq_true_2 in Hkept by done.
    apply orb_prop in Hkept as [Hkept|Hkept]; [apply orb_prop in Hkept as [Hkept|Hkept]|];
      apply status_is_true in Hkept; auto.
Qed.

(** ** Votes *)

Lemma runT_vote env proposalId voter :
  truthy proposalId = true ->
  truthy voter = true ->
  runT env (vote env proposalId voter) =
  (Returned (voteOf env proposalId voter), voteCalls env proposalId voter).
Proof.
  intros Hid Hvoter. unfold vote, voteOf, voteCalls. rewrite Hid, Hvoter. cbn [negb].
  rewrite runT_bind, runT_await. cbn [answer]. cbn [denote] in *.
  destruct (getTransformationMatch env KVoteCast _ _) as [m|]; cbn [fmap option_fmap option_map].
  { by rewrite runT_bind. }
  rewrite !runT_bind, runT_await. cbn [answer]. cbn [denote] in *.
  destruct (get env KBallot _ _) as [ballot|]; [|done].
  by rewrite runT_bind, runT_await.
Qed.

(** X17: with both arguments given [vote] never throws.  The vote of the
    transformation index wins; the raw ballot is read only when the index has
    none, and the date of the ballot only when there is a ballot.  [vote]
    returns nothing exactly when neither source has the vote, and a vote it
    returns names the voter that was asked for. *)
Theorem vote_resolution env proposalId voter :
  truthy proposalId = true ->
  truthy voter = true ->
  runT env (vote env proposalId voter) =
  (Returned (voteOf env proposalId voter), voteCalls env proposalId voter) /\
  (voteOf env proposalId voter = None <->
   env.(getTransformationMatch) KVoteCast env.(contractAddress)
     ("voteCast:" +:+ text voter +:+ ":" +:+ text proposalId) = None /\
   env.(get) KBallot env.(contractAddress) (ballotPath proposalId (text voter)) = None) /\
  (forall info, voteOf env proposalId voter = Some info -> info.(vi_voter) = text voter).
Proof.
  intros Hid Hvoter. split; [by apply runT_vote|]. unfold voteOf. cbn [denote].
  destruct (getTransformationMatch env KVoteCast _ _) as [m|].
  { split; [split; [done|by intros [? _]]|]. by intros info [= <-]. }
  destruct (get env KBallot _ _) as [ballot|].
  { split; [split; [done|by intros [_ ?]]|]. by intros info [= <-]. }
  done.
Qed.

(** X18: when the transformation index answers, [listVotes] is that answer:
    one vote for each match, in the order of the matches, after a single call
    that hands the cursor and the limit to the index; the raw ballots are not
    read and the page is not cut again. *)
Theorem listVotes_index_page env proposalId limit startAfter matches :
  invalidId proposalId = false ->
  env.(getTransformationMatches) KVoteCast env.(contractAddress)
    ("voteCast:*:" +:+ text proposalId)
    (if truthy startAfter
     then Some (Op_gt ("voteCast:" +:+ text startAfter +:+ ":" +:+ text proposalId))
     else None)
    (if truthy limit then Some (limitNum limit) else None) = Some matches ->
  run env (listVotes env proposalId limit startAfter) =
  (Returned (map (fun m => voteInfo m.(value).(vc_voter) m.(value)) matches),
   [Called (GetTransformationMatches KVoteCast env.(contractAddress)
              ("voteCast:*:" +:+ text proposalId)
              (if truthy startAfter
               then Some (Op_gt ("voteCast:" +:+ text startAfter +:+ ":" +:+ text proposalId))
               else None)
              (if truthy limit then Some (limitNum limit) else None))]).
Proof.
  intros Hid Hmatches. unfold listVotes. rewrite Hid.
  rewrite run_bind, run_await. cbn [answer]. cbn [denote] in *. rewrite Hmatches.
  cbn [fmap option_fmap option_map]. rewrite run_bind. cbn. by rewrite map_map.
Qed.

Lemma elem_of_keys_string {V} (m : gmap string V) k : k ∈ keys m <-> is_Some (m !! k).
Proof.
  unfold keys. rewrite list_elem_of_fmap. split.
  - intros [[k' v] [-> Hin%elem_of_map_to_list]]. by exists v.
  - intros [v Hv]. exists (k, v). by rewrite elem_of_map_to_list.
Qed.

Lemma NoDup_slice0 {A} (l : list A) n : NoDup l -> NoDup (slice0 l n).
Proof.
  intros Hl. destruct n as [| |z|]; cbn; [constructor..| |done].
  destruct (z <? 0); (eapply sublist_NoDup; [done|apply sublist_take]).
Qed.

Lemma NoDup_List_filter {A} (f : A -> bool) (l : list A) : NoDup l -> NoDup (List.filter f l).
Proof. intros Hl. eapply sublist_NoDup; [done|apply sublist_List_filter]. Qed.

Lemma pageVoters_NoDup (ballots : gmap string Ballot) limit startAfter :
  NoDup (pageVoters ballots limit startAfter).
Proof.
  apply NoDup_slice0, NoDup_List_filter. unfold sort.
  rewrite merge_sort_Permutation. apply NoDup_fst_map_to_list.
Qed.

Lemma pageVoters_elem (ballots : gmap string Ballot) limit startAfter voter :
  voter ∈ pageVoters ballots limit startAfter ->
  is_Some (ballots !! voter) /\
  (truthy startAfter = true -> 0 < localeCompare voter (text startAfter)).
Proof.
  intros [Hin Hafter]%elem_of_slice0%elem_of_List_filter.
  unfold sort in Hin. rewrite merge_sort_Permutation in Hin.
  split; [by apply elem_of_keys_string|].
  intros Htruthy. rewrite Htruthy in Hafter. cbn in Hafter. lia.
Qed.

Lemma pageVoters_length (ballots : gmap string Ballot) limit startAfter n :
  reads_as limit (Some n) ->
  (length (pageVoters ballots limit startAfter) <= Z.to_nat n)%nat.
Proof.
  intros Hn. unfold pageVoters. rewrite (slice0_limitNum _ limit (Some n)) by done.
  cbn. rewrite length_take. lia.
Qed.

Lemma pageVoters_all (ballots : gmap string Ballot) limit startAfter :
  truthy limit = false ->
  truthy startAfter = false ->
  pageVoters ballots limit startAfter ≡ₚ keys ballots.
Proof.
  intros Hlimit Hafter. unfold pageVoters, limitNum. rewrite Hlimit, Hafter. cbn.
  rewrite List_filter_true by done. apply merge_sort_Permutation.
Qed.

(** X19: the raw-event page of [listVotes] holds stored ballots only, one
    for each voter of the page: no voter comes twice, every vote carries the
    ballot the store has for its voter, every voter sorts strictly after the
    [startAfter] cursor, and there are at most [limit] votes; with neither a
    cursor nor a limit every stored ballot is on the page. *)
Theorem listVotes_raw_page env proposalId limit startAfter :
  invalidId proposalId = false ->
  env.(getTransformationMatches) KVoteCast env.(contractAddress)
    ("voteCast:*:" +:+ text proposalId)
    (if truthy startAfter
     then Some (Op_gt ("voteCast:" +:+ text startAfter +:+ ":" +:+ text proposalId))
     else None)
    (if truthy limit then Some (limitNum limit) else None) = None ->
  let ballots :=
    default ∅ (env.(getMapString) KBallot env.(contractAddress)
                 [KeyS "ballots"; KeyN (NumberArg proposalId)]) in
  exists votes,
    eval env (listVotes env proposalId limit startAfter) = Returned votes /\
    NoDup (map vi_voter votes) /\
    Forall (fun v =>
              is_Some v.(vi_ballot) /\
              v.(vi_ballot) = ballots !! v.(vi_voter) /\
              (truthy startAfter = true ->
               0 < localeCompare v.(vi_voter) (text startAfter))) votes /\
    (forall n, reads_as limit (Some n) -> (length votes <= Z.to_nat n)%nat) /\
    (truthy limit = false -> truthy startAfter = false ->
     map vi_voter votes ≡ₚ keys ballots).
Proof.
  intros Hid Hnone ballots. eexists. split; [by apply eval_listVotes_raw|].
  fold ballots. set (voters := pageVoters ballots limit startAfter).
  assert (map vi_voter (rawVotes env proposalId ballots (bool_decide (length voters <= 50)%nat) voters)
          = voters) as Hvoters.
  { unfold rawVotes. rewrite map_map. cbn. apply map_id. }
  rewrite Hvoters. split; [apply pageVoters_NoDup|]. split; [|split].
  - unfold rawVotes. apply Forall_forall. intros v (voter & -> & Hin)%list_elem_of_fmap. cbn.
    destruct (pageVoters_elem ballots limit startAfter voter Hin) as [Hsome Hafter].
    done.
  - intros n Hn. unfold rawVotes. rewrite length_map. by apply pageVoters_length.
  - apply pageVoters_all.
Qed.

(** X20: when [localeCompare] orders the addresses (it is transitive and
    total), the raw-event page of [listVotes] comes in ascending order of the
    voters' addresses. *)
Theorem listVotes_raw_sorted env proposalId limit startAfter :
  Transitive (before localeCompare) ->
  Total (before localeCompare) ->
  invalidId proposalId = false ->
  env.(getTransformationMatches) KVoteCast env.(contractAddress)
    ("voteCast:*:" +:+ text proposalId)
    (if truthy startAfter
     then Some (Op_gt ("voteCast:" +:+ text startAfter +:+ ":" +:+ text proposalId))
     else None)
    (if truthy limit then Some (limitNum limit) else None) = None ->
  exists votes,
    eval env (listVotes env proposalId limit startAfter) = Returned votes /\
    StronglySorted (before localeCompare) (map vi_voter votes).
Proof.
  intros Htrans Htotal Hid Hnone. eexists. split; [by apply eval_listVotes_raw|].
  unfold rawVotes. rewrite map_map. cbn. rewrite map_id. unfold pageVoters.
  apply StronglySorted_slice0, StronglySorted_List_filter. unfold sort.
  by apply StronglySorted_merge_sort.
Qed.

(** ** Open proposals *)

Lemma truthy_toString n : truthy (Some (toString n)) = true.
Proof. cbn. pose proof (toString_truthy n) as Hne. apply String.eqb_neq in Hne. by rewrite Hne. Qed.

Lemma evalPool_votes env address (open : list ProposalResponse) :
  truthy address = true ->
  evalPool env (map (fun r => vote env (Some (toString r.(res_id))) address) open) =
  Returned (map (fun r => voteOf env (Some (toString r.(res_id))) address) open).
Proof.
  intros Haddress. induction open as [|r open IH]; [done|]. cbn [map].
  rewrite evalPool_cons, IH. unfold evalT.
  by rewrite runT_vote by (done || apply truthy_toString).
Qed.

(** X21: [openProposals] is the whole ascending listing (no cursor, no limit,
    no status filter) cut down to the responses whose derived status is
    [Open], and it throws what that listing throws and nothing else.  Without
    an address no response carries a [voted] flag; with an address every
    response does, and the flag tells whether [vote] finds a vote of that
    address on the proposal. *)
Theorem openProposals_of_listing env address :
  match eval env (listProposals env None None None) with
  | Thrown m => eval env (openProposals env address) = Thrown m
  | Returned listed =>
      eval env (openProposals env address) =
      Returned
        (map (fun r =>
                (r, if truthy address
                    then Some (defined (voteOf env (Some (toString r.(res_id))) address))
                    else None))
           (List.filter (fun r => status_is r.(res_proposal).(status) StatusEnum.Open) listed))
  end.
Proof.
  unfold openProposals. rewrite eval_bind.
  destruct (eval env (listProposals env None None None)) as [listed|m]; [|done].
  set (open := List.filter _ listed). rewrite eval_bind.
  destruct (truthy address) eqn:Haddress.
  - rewrite eval_bind, eval_Promise_all, evalPool_votes by done. cbv beta iota.
    rewrite !eval_ret. cbv beta iota. f_equal.
    rewrite <-(imap_const (fun r => (r, Some (defined (voteOf env (Some (toString r.(res_id))) address))))).
    apply imap_ext. intros i r Hr. cbn. unfold item.
    change (map ?f open) with (f <$> open). by rewrite list_lookup_fmap, Hr.
  - by rewrite !eval_ret.
Qed.

(** ** The accessor calls of a response and of a listing *)

Lemma calls_le_bind {A B} env m n (t : task A) (f : A -> task B) :
  calls_le env m t -> (forall a, calls_le env n (f a)) -> calls_le env (m + n) (t ≫= f).
Proof.
  unfold calls_le. intros Ht Hf. rewrite traceT_bind.
  destruct (evalT env t) as [a|?]; [|lia]. rewrite length_app. specialize (Hf a). lia.
Qed.

Lemma calls_le_mono {A} env m n (t : task A) :
  calls_le env m t -> (m <= n)%nat -> calls_le env n t.
Proof. unfold calls_le. lia. Qed.

Lemma calls_le_ret {A} env (a : A) : calls_le env 0 (mret a).
Proof. unfold calls_le. done. Qed.

Lemma calls_le_statusDate env id v2 where_ : calls_le env 2 (statusDate env id v2 where_).
Proof.
  unfold calls_le, traceT, statusDate.
  rewrite runT_bind, runT_nullish, !runT_await. cbn [answer].
  destruct (getDateFirstTransformed env _ _ _); cbn; lia.
Qed.

Lemma calls_le_proposalCreatedAt env id : calls_le env 3 (proposalCreatedAt env id).
Proof.
  unfold calls_le, traceT, proposalCreatedAt. destruct (invalidId id); [cbn; lia|].
  rewrite runT_bind, !runT_nullish, !runT_await. cbn [answer].
  destruct (getDateFirstTransformed env _ _ _); [cbn; lia|].
  destruct (getDateKeyFirstSet env _ [KeyS "proposals_v2"; _]); cbn; lia.
Qed.

Lemma dateLookup_statusDate env id v2 where_ :
  Forall dateLookup (traceT env (statusDate env id v2 where_)).
Proof.
  unfold statusDate. apply traceT_bind_Forall; [|intros; apply traceT_ret_Forall].
  apply traceT_nullish_Forall; by apply traceT_await_Forall.
Qed.

Lemma dateLookup_proposalCreatedAt env id :
  Forall dateLookup (traceT env (proposalCreatedAt env id)).
Proof.
  unfold proposalCreatedAt. destruct (invalidId id); [constructor|].
  apply traceT_bind_Forall; [|intros; apply traceT_ret_Forall].
  repeat apply traceT_nullish_Forall; by apply traceT_await_Forall.
Qed.

Lemma dateLookup_intoResponse env proposal id v2 :
  Forall dateLookup (traceT env (intoResponse env proposal id v2)).
Proof.
  unfold intoResponse.
  apply traceT_bind_Forall; [apply dateLookup_proposalCreatedAt|]. intros created.
  apply traceT_bind_Forall.
  { case_match; [apply dateLookup_statusDate|apply traceT_ret_Forall]. }
  intros executed. apply traceT_bind_Forall.
  { case_match; [apply dateLookup_statusDate|apply traceT_ret_Forall]. }
  intros closed. apply traceT_bind_Forall; [|intros; apply traceT_ret_Forall].
  repeat case_match; (apply dateLookup_statusDate || apply traceT_ret_Forall).
Qed.

Lemma calls_le_intoResponse env proposal id v2 : calls_le env 7 (intoResponse env proposal id v2).
Proof.
  unfold intoResponse. cbv zeta.
  assert (forall (executed closed : option string),
            calls_le env 2
              (if truthy executed then mret executed
               else if truthy closed then mret closed
               else statusDate env id v2 (status_in ["passed"; "rejected"]))) as Hcompleted.
  { intros executed closed.
    destruct (truthy executed); [eapply calls_le_mono; [apply calls_le_ret|lia]|].
    destruct (truthy closed); [eapply calls_le_mono; [apply calls_le_ret|lia]|].
    apply calls_le_statusDate. }
  destruct (status (updateStatus env proposal)) as [[]|e];
    cbn [status_is StatusEnum.eqb orb negb].
  1-3,7-8:
    apply (calls_le_mono env (3 + (0 + (0 + (2 + 0)))) 7); [|lia];
    apply calls_le_bind; [apply calls_le_proposalCreatedAt|]; intros created;
    apply calls_le_bind; [apply calls_le_ret|]; intros executed;
    apply calls_le_bind; [apply calls_le_ret|]; intros closed;
    (apply calls_le_bind; [|intros; apply calls_le_ret]);
    (apply Hcompleted || (eapply calls_le_mono; [apply calls_le_ret|lia])).
  1,3:
    apply (calls_le_mono env (3 + (2 + (0 + (2 + 0)))) 7); [|lia];
    apply calls_le_bind; [apply calls_le_proposalCreatedAt|]; intros created;
    apply calls_le_bind; [apply calls_le_statusDate|]; intros executed;
    apply calls_le_bind; [apply calls_le_ret|]; intros closed;
    (apply calls_le_bind; [|intros; apply calls_le_ret]); apply Hcompleted.
  apply (calls_le_mono env (3 + (0 + (2 + (2 + 0)))) 7); [|lia].
  apply calls_le_bind; [apply calls_le_proposalCreatedAt|]; intros created.
  apply calls_le_bind; [apply calls_le_ret|]; intros executed.
  apply calls_le_bind; [apply calls_le_statusDate|]; intros closed.
  apply calls_le_bind; [|intros; apply calls_le_ret]. apply Hcompleted.
Qed.

(** X22: [intoResponse] only asks the environment for dates (it reads no
    proposal, ballot or vote) and makes at most seven accessor calls; for a
    proposal whose derived status is [Open] its calls are those of
    [proposalCreatedAt], at most three. *)
Theorem intoResponse_calls env proposal id v2 :
  Forall dateLookup (traceT env (intoResponse env proposal id v2)) /\
  calls_le env 7 (intoResponse env proposal id v2) /\
  ((updateStatus env proposal).(status) = Enum StatusEnum.Open ->
   traceT env (intoResponse env proposal id v2) =
   traceT env (proposalCreatedAt env (Some (toString id))) /\
   calls_le env 3 (intoResponse env proposal id v2)).
Proof.
  split; [apply dateLookup_intoResponse|]. split; [apply calls_le_intoResponse|].
  intros Hopen.
  assert (traceT env (intoResponse env proposal id v2) =
          traceT env (proposalCreatedAt env (Some (toString id)))) as Htrace.
  { unfold intoResponse. cbv zeta. rewrite Hopen. cbn [status_is StatusEnum.eqb orb negb].
    rewrite traceT_bind. destruct (evalT env (proposalCreatedAt _ _)); [|done].
    by rewrite app_nil_r. }
  split; [done|]. unfold calls_le. rewrite Htrace. apply calls_le_proposalCreatedAt.
Qed.

Lemma length_runPool {X} env (ts : list (task X)) k :
  (forall t, t ∈ ts -> calls_le env k t) ->
  (length (runPool env ts).2 <= k * length ts)%nat.
Proof.
  induction ts as [|t ts IH]; intros Hts; cbn; [lia|].
  pose proof (Hts t ltac:(by left)) as Ht. unfold calls_le, traceT in Ht.
  destruct (runT env t) as [r tr]. destruct (runPool env ts) as [rs trs]. cbn in *.
  rewrite length_app. specialize (IH ltac:(intros t' Hin; apply Hts; by right)). lia.
Qed.

Lemma calls_le_intoResponseOf env record id v2 : calls_le env 7 (intoResponseOf env record id v2).
Proof.
  destruct record as [record|]; [apply calls_le_intoResponse|]. unfold calls_le. cbn. lia.
Qed.

Lemma length_orderedFallback {A} (sources : list (source A)) :
  (length (orderedFallback sources).2 <= length sources)%nat.
Proof.
  induction sources as [|[[e [a|]] v2] sources IH]; cbn; [lia..|].
  destruct (orderedFallback sources). cbn in *. lia.
Qed.

(** X23: a listing with a limit makes a bounded number of accessor calls: at
    most three to find the proposals and at most seven for each response, so
    at most [3 + 7 * limit] in all. *)
Theorem listing_calls_bounded env limit cursor filter n :
  reads_as limit (Some n) ->
  (length (run env (listProposals env limit cursor filter)).2 <= 3 + 7 * Z.to_nat n)%nat /\
  (length (run env (reverseProposals env limit cursor)).2 <= 3 + 7 * Z.to_nat n)%nat.
Proof.
  intros Hn. rewrite run_listProposals, run_reverseProposals.
  pose proof (length_orderedFallback (proposalsSources env)) as Hconsulted.
  destruct (orderedFallback (proposalsSources env)) as [[[proposals v2]|] consulted];
    cbn in Hconsulted; [|cbn; lia].
  split.
  - pose proof (length_runPool env
                  (map (fun id => intoResponseOf env (proposals !! id) (Num id) v2)
                     (ascendingIds proposals limit cursor)) 7) as Hpool.
    destruct (runPool env _) as [r tr]. cbn in *. rewrite length_app.
    rewrite length_map in Hpool.
    pose proof (length_slice0_limitNum
                  (List.filter (fun id => gt (Num id) (startAfterNum cursor))
                     (sort (fun a b => a - b) (keys proposals))) limit n Hn) as Hpage.
    fold (ascendingIds proposals limit cursor) in Hpage.
    cut (length tr <= 7 * length (ascendingIds proposals limit cursor))%nat; [lia|].
    apply Hpool. intros t (id & -> & _)%list_elem_of_fmap. apply calls_le_intoResponseOf.
  - pose proof (length_runPool env
                  (map (fun id => intoResponseOf env (proposals !! id) (Num id) v2)
                     (descendingIds proposals limit cursor)) 7) as Hpool.
    destruct (runPool env _) as [r tr]. cbn in *. rewrite length_app.
    rewrite length_map in Hpool.
    pose proof (length_slice0_limitNum
                  (List.filter (fun id => lt (Num id) (startBeforeNum cursor))
                     (sort (fun a b => b - a) (keys proposals))) limit n Hn) as Hpage.
    fold (descendingIds proposals limit cursor) in Hpage.
    cut (length tr <= 7 * length (descendingIds proposals limit cursor))%nat; [lia|].
    apply Hpool. intros t (id & -> & _)%list_elem_of_fmap. apply calls_le_intoResponseOf.
Qed.

End Formulas.

(** * A concrete environment

    The formulas are run here on small stores.  Numbers are read and printed
    in decimal, dates are milliseconds, an expiration is a block height and a
    duration a number of blocks. *)

(** [Number(s)] on decimal integers, the empty string and the infinities; any
    other text is not a number. *)
Definition decimalNumber (s : string) : number :=
  match NilZero.int_of_string s with
  | Some i => Num (Z.of_int i)
  | None =>
      if String.eqb s "" then Num 0
      else if String.eqb s "Infinity" then Infinity
      else if String.eqb s "-Infinity" then NegInfinity
      else NaN
  end.

(** [String(n)] *)
Definition decimalString (n : number) : string :=
  match n with
  | NaN => "NaN"
  | Infinity => "Infinity"
  | NegInfinity => "-Infinity"
  | Num z => NilZero.string_of_int (Z.to_int z)
  end.

(** Code-unit order, as [-1], [0] or [1]. *)
Definition compareStrings (a b : string) : Z :=
  match String.compare a b with
  | Lt => -1
  | Eq => 0
  | Gt => 1
  end.

(** A stand-in for the ISO rendering of a date: the text of its milliseconds
    after a ["T"]. *)
Definition isoString (d : Z) : string := "T" +:+ decimalString (Num d).

Lemma to_int_parses z : NilZero.int_of_string (NilZero.string_of_int (Z.to_int z)) = Some (Z.to_int z).
Proof.
  apply NilZero.isi; destruct z as [|p|p]; cbn; try done.
  - intros [= Hnil]. by apply (DecimalPos.Unsigned.to_uint_nonnil p).
  - intros [= Hnil]. by apply (DecimalPos.Unsigned.to_uint_nonnil p).
Qed.

Lemma decimalNumber_decimalString n : decimalNumber (decimalString n) = n.
Proof.
  destruct n as [| |z|]; try done.
  unfold decimalNumber, decimalString. by rewrite to_int_parses, DecimalZ.of_to.
Qed.

Lemma decimalString_truthy n : decimalString n <> "".
Proof.
  destruct n as [| |z|]; try done. cbn. intros Hempty.
  pose proof (to_int_parses z) as Hparse. by rewrite Hempty in Hparse.
Qed.

Lemma isoString_truthy d : isoString d <> "".
Proof. done. Qed.

#[global] Instance decimalJS : Builtins := {|
  Date := Z;
  Number := decimalNumber;
  toString := decimalString;
  localeCompare := compareStrings;
  toISOString := isoString;
  Number_toString := decimalNumber_decimalString;
  toString_truthy := decimalString_truthy;
  toISOString_truthy := isoString_truthy;
|}.

(** The types of the concrete environment: expirations are block heights,
    durations are numbers of blocks, a ballot is the text of the vote, and the
    rest of a proposal is the pair of its pass and reject conditions. *)
Abbreviation proposalT := (@SingleChoiceProposal Z Z (bool * bool)).
Abbreviation envT := (@ContractEnv decimalJS Z Z string string (bool * bool)).

(** Modelled from the spec: the code of [isPassed], [isRejected],
    [expirationPlusDuration] and [isExpirationExpired] is outside the sources.
    The spec gives the pass and reject conditions as results computed
    elsewhere, the veto expiration as the proposal's expiration plus the
    timelock duration, and expiry as relative to the query height. *)
#[global] Instance heightImports : @Imports decimalJS Z Z string string (bool * bool) := {|
  isPassed := fun _ proposal => proposal.(rest).1;
  isRejected := fun _ proposal => proposal.(rest).2;
  expirationPlusDuration := fun expiration duration => expiration + duration;
  isExpirationExpired := fun env expiration => expiration <=? env.(block).(height);
|}.

Definition lookupIn {K V} `{Countable K} (store : option (gmap K V)) (k : K) : option V :=
  match store with
  | Some m => m !! k
  | None => None
  end.

(** The transformation named [name] among the indexed proposals. *)
Definition indexed (index : option (gmap Z proposalT)) (name : string) : option (Match proposalT) :=
  match index with
  | Some m =>
      head (omap (fun '(id, p) =>
                    if String.eqb name ("proposal:" +:+ decimalString (Num id))
                    then Some {| value := p |} else None)
              (map_to_list m))
  | None => None
  end.

(** An environment at block [h] over a transformation index of proposals, the
    two raw proposal schemas and the raw ballots of one proposal.  Creation is
    dated 1000, an execution 2000, a pass or rejection 2500, a close 3000 and a
    ballot 4000; the dates are recorded in the raw events only. *)
Definition storeEnv (h : Z) (index rawV2 rawV1 : option (gmap Z proposalT)) (ballots : option (gmap string string)) : envT :=
  {| contractAddress := "juno1proposals";
     block := {| height := h; timeUnixMs := 0 |};
     get := fun T _ keys =>
       match T return option (@denote Z Z string string (bool * bool) T) with
       | KProposal =>
           match keys with
           | [KeyS s; KeyN (Num id)] =>
               if String.eqb s "proposals_v2" then lookupIn rawV2 id
               else if String.eqb s "proposals" then lookupIn rawV1 id
               else None
           | _ => None
           end
       | KBallot =>
           match keys with
           | [KeyS _; KeyN _; KeyS voter] => lookupIn ballots voter
           | _ => None
           end
       | _ => None
       end;
     getMapNumber := fun T _ name =>
       match T return option (gmap Z (@denote Z Z string string (bool * bool) T)) with
       | KProposal =>
           match name with
           | [KeyS s] =>
               if String.eqb s "proposals_v2" then rawV2
               else if String.eqb s "proposals" then rawV1
               else None
           | _ => None
           end
       | _ => None
       end;
     getMapString := fun T _ _ =>
       match T return option (gmap string (@denote Z Z string string (bool * bool) T)) with
       | KBallot => ballots
       | _ => None
       end;
     getDateKeyModified := fun _ _ => Some 4000;
     getDateKeyFirstSet := fun _ _ => Some 1000;
     getDateKeyFirstSetWithValueMatch := fun _ _ where_ =>
       match where_ with
       | status_in ("executed" :: _) => Some 2000
       | status_in _ => Some 2500
       | status_eq _ => Some 3000
       end;
     getTransformationMatch := fun T _ name =>
       match T return option (Match (@denote Z Z string string (bool * bool) T)) with
       | KProposal => indexed index name
       | _ => None
       end;
     getTransformationMatches := fun _ _ _ _ _ => None;
     getTransformationMap := fun T _ name =>
       match T return option (gmap Z (@denote Z Z string string (bool * bool) T)) with
       | KProposal => if String.eqb name "proposal" then index else None
       | _ => None
       end;
     getDateFirstTransformed := fun _ _ _ => None |}.

(** A proposal that expires at block 100. *)
Definition aProposal (status : @Status Z) (veto : option (@VetoConfig Z)) (passed rejected : bool) : proposalT :=
  {| status := status; expiration := 100; veto := veto; rest := (passed, rejected) |}.

(** Proposals 1, 3, 5 and 7. *)
Definition fourProposals : gmap Z proposalT :=
  list_to_map
    [(1, aProposal StatusEnum.Open None false false);
     (3, aProposal StatusEnum.Executed None true false);
     (5, aProposal StatusEnum.Open None true false);
     (7, aProposal StatusEnum.Closed None false true)].

(** An environment at block [h] with nothing stored but the dates. *)
Definition blockEnv (h : Z) : envT := storeEnv h None None None None.

(** Proposals 1 and 2 in the raw v1 schema: the first is open and rejected,
    the second is open and passes. *)
Definition twoProposals : gmap Z proposalT :=
  list_to_map
    [(1, aProposal StatusEnum.Open None false true);
     (2, aProposal StatusEnum.Open None true false)].

(** The ballots of fifty-one voters. *)
Definition fiftyOneBallots : gmap string string :=
  list_to_map (map (fun i => ("voter" +:+ decimalString (Num i), "yes")) (seqZ 0 51)).

(** The ballots of two voters. *)
Definition twoBallots : gmap string string :=
  list_to_map [("juno1alice", "yes"); ("juno1bob", "no")].

(** Proposals -1 and 2: a store with a negative key. *)
Definition strayProposals : gmap Z proposalT :=
  list_to_map
    [(-1, aProposal StatusEnum.Open None false false);
     (2, aProposal StatusEnum.Open None true false)].

(** The votes the transformation index has on proposal 1. *)
Definition indexedVotes : list (Match (@VoteCast string)) :=
  [{| value := {| vc_voter := "juno1bob"; vc_vote := Some "no"; vc_votedAt := Some "T7000" |} |};
   {| value := {| vc_voter := "juno1alice"; vc_vote := Some "yes"; vc_votedAt := None |} |}].

(** The store of [storeEnv] at block 50 with proposals 1, 3, 5 and 7 in the
    raw v1 schema and the ballots of two voters, and a transformation index
    that has the votes on proposal 1 (whatever the range asked for) and
    Alice's on its own. *)
Definition votesEnv : envT :=
  let store := storeEnv 50 None None (Some fourProposals) (Some twoBallots) in
  {| contractAddress := store.(contractAddress);
     block := store.(block);
     get := store.(get);
     getMapNumber := store.(getMapNumber);
     getMapString := store.(getMapString);
     getDateKeyModified := store.(getDateKeyModified);
     getDateKeyFirstSet := store.(getDateKeyFirstSet);
     getDateKeyFirstSetWithValueMatch := store.(getDateKeyFirstSetWithValueMatch);
     getTransformationMatch := fun T _ name =>
       match T return option (Match (@denote Z Z string string (bool * bool) T)) with
       | KVoteCast =>
           if String.eqb name "voteCast:juno1alice:1"
           then Some {| value := {| vc_voter := "juno1alice"; vc_vote := Some "yes";
                                    vc_votedAt := None |} |}
           else None
       | _ => None
       end;
     getTransformationMatches := fun T _ name _ _ =>
       match T return option (list (Match (@denote Z Z string string (bool * bool) T))) with
       | KVoteCast => if String.eqb name "voteCast:*:1" then Some indexedVotes else None
       | _ => None
       end;
     getTransformationMap := store.(getTransformationMap);
     getDateFirstTransformed := store.(getDateFirstTransformed) |}.

(** The store of [storeEnv] at block 50 with an empty transformation index,
    where the date a status was first set depends on the raw schema that is
    asked: 2222 under ["proposals_v2"], 1111 under ["proposals"]. *)
Definition schemaEnv (rawV2 rawV1 : option (gmap Z proposalT)) : envT :=
  let store := storeEnv 50 None rawV2 rawV1 None in
  {| contractAddress := store.(contractAddress);
     block := store.(block);
     get := store.(get);
     getMapNumber := store.(getMapNumber);
     getMapString := store.(getMapString);
     getDateKeyModified := store.(getDateKeyModified);
     getDateKeyFirstSet := store.(getDateKeyFirstSet);
     getDateKeyFirstSetWithValueMatch := fun _ keys _ =>
       match keys with
       | [KeyS s; KeyN _] =>
           if String.eqb s "proposals_v2" then Some 2222
           else if String.eqb s "proposals" then Some 1111
           else None
       | _ => None
       end;
     getTransformationMatch := store.(getTransformationMatch);
     getTransformationMatches := store.(getTransformationMatches);
     getTransformationMap := store.(getTransformationMap);
     getDateFirstTransformed := store.(getDateFirstTransformed) |}.

(** An environment that only stores the proposal count. *)
Definition countEnv (count : option number) : envT :=
  let store := blockEnv 50 in
  {| contractAddress := store.(contractAddress);
     block := store.(block);
     get := fun T _ keys =>
       match T return option (@denote Z Z string string (bool * bool) T) with
       | KNumber =>
           match keys with
           | [KeyS s] => if String.eqb s "proposal_count" then count else None
           | _ => None
           end
       | _ => None
       end;
     getMapNumber := store.(getMapNumber);
     getMapString := store.(getMapString);
     getDateKeyModified := store.(getDateKeyModified);
     getDateKeyFirstSet := store.(getDateKeyFirstSet);
     getDateKeyFirstSetWithValueMatch := store.(getDateKeyFirstSetWithValueMatch);
     getTransformationMatch := store.(getTransformationMatch);
     getTransformationMatches := store.(getTransformationMatches);
     getTransformationMap := store.(getTransformationMap);
     getDateFirstTransformed := store.(getDateFirstTransformed) |}.

(** An environment that only stores the configuration items; a configuration
    is the address of its DAO. *)
Definition configEnv (configV2 config : option string) : envT :=
  let store := blockEnv 50 in
  {| contractAddress := store.(contractAddress);
     block := store.(block);
     get := fun T _ keys =>
       match T return option (@denote Z Z string string (bool * bool) T) with
       | KConfig =>
           match keys with
           | [KeyS s] =>
               if String.eqb s "config_v2" then configV2
               else if String.eqb s "config" then config
               else None
           | _ => None
           end
       | _ => None
       end;
     getMapNumber := store.(getMapNumber);
     getMapString := store.(getMapString);
     getDateKeyModified := store.(getDateKeyModified);
     getDateKeyFirstSet := store.(getDateKeyFirstSet);
     getDateKeyFirstSetWithValueMatch := store.(getDateKeyFirstSetWithValueMatch);
     getTransformationMatch := store.(getTransformationMatch);
     getTransformationMatches := store.(getTransformationMatches);
     getTransformationMap := store.(getTransformationMap);
     getDateFirstTransformed := store.(getDateFirstTransformed) |}.

(** ** Worked examples *)

Lemma open_passed_status_witness :
  (exists r,
     evalT (blockEnv 105)
       (intoResponse (blockEnv 105)
          (aProposal StatusEnum.Open (Some {| timelock_duration := 10 |}) true false)
          (Num 1) false) = Returned r /\
     r.(res_proposal).(status) = veto_timelock 110) /\
  (exists r,
     evalT (blockEnv 120)
       (intoResponse (blockEnv 120)
          (aProposal StatusEnum.Open (Some {| timelock_duration := 10 |}) true false)
          (Num 1) false) = Returned r /\
     r.(res_proposal).(status) = Enum StatusEnum.Passed) /\
  (exists r,
     evalT (blockEnv 120)
       (intoResponse (blockEnv 120)
          (aProposal (veto_timelock 110) (Some {| timelock_duration := 10 |}) true false)
          (Num 1) false) = Returned r /\
     (r.(res_proposal).(status) = Enum StatusEnum.Passed <-> (110 <=? 120) = true)).
Proof.
  split; [|split].
  - exact (proj1 (open_passed_status (blockEnv 105)
                    (aProposal StatusEnum.Open (Some {| timelock_duration := 10 |}) true false)
                    (Num 1) false eq_refl) eq_refl eq_refl).
  - exact (proj1 (open_passed_status (blockEnv 120)
                    (aProposal StatusEnum.Open (Some {| timelock_duration := 10 |}) true false)
                    (Num 1) false eq_refl) eq_refl eq_refl).
  - exact (proj2 (open_passed_status (blockEnv 120)
                    (aProposal (veto_timelock 110) (Some {| timelock_duration := 10 |}) true false)
                    (Num 1) false eq_refl) 110 eq_refl).
Defined.

Lemma open_not_passed_status_witness :
  (exists r,
     evalT (blockEnv 150)
       (intoResponse (blockEnv 150) (aProposal StatusEnum.Open None false false) (Num 1) false)
     = Returned r /\
     r.(res_proposal).(status) = Enum StatusEnum.Rejected) /\
  (exists r,
     evalT (blockEnv 50)
       (intoResponse (blockEnv 50) (aProposal StatusEnum.Open None false false) (Num 1) false)
     = Returned r /\
     r.(res_proposal).(status) = Enum StatusEnum.Open).
Proof.
  split.
  - exact (open_not_passed_status (blockEnv 150)
             (aProposal StatusEnum.Open None false false) (Num 1) false eq_refl eq_refl eq_refl).
  - exact (open_not_passed_status (blockEnv 50)
             (aProposal StatusEnum.Open None false false) (Num 1) false eq_refl eq_refl eq_refl).
Defined.

Lemma terminal_status_not_derived_witness :
  exists r,
    evalT (blockEnv 150)
      (intoResponse (blockEnv 150) (aProposal StatusEnum.Executed None true false) (Num 1) true)
    = Returned r /\
    r.(res_proposal).(status) = Enum StatusEnum.Executed.
Proof.
  destruct (terminal_status_not_derived (blockEnv 150)
              (aProposal StatusEnum.Executed None true false) (Num 1) true eq_refl)
    as (r & Hr & Hkept & _).
  exists r. split; [exact Hr|]. by apply Hkept.
Defined.

Lemma completedAt_preference_witness :
  exists r,
    evalT (blockEnv 150)
      (intoResponse (blockEnv 150) (aProposal StatusEnum.Executed None true false) (Num 1) true)
    = Returned r /\
    r.(executedAt) = Some "T2000" /\
    r.(completedAt) = Some "T2000".
Proof.
  destruct (completedAt_preference (blockEnv 150)
              (aProposal StatusEnum.Executed None true false) (Num 1) true eq_refl)
    as (r & Hr & Hcompleted & _).
  exists r. split; [exact Hr|].
  assert (r.(executedAt) = Some "T2000") as Hexecuted.
  { rewrite intoResponse_returns in Hr by done. by injection Hr as <-. }
  split; [exact Hexecuted|].
  rewrite Hcompleted, Hexecuted; [done|].
  rewrite intoResponse_returns in Hr by done. by injection Hr as <-.
Defined.


(** With the same proposals in the transformation index too, the index wins
    and no raw proposal is read. *)
Lemma proposal_index_first :
  take 2
    (traceT (storeEnv 50 (Some fourProposals) (Some fourProposals) (Some fourProposals) None)
       (proposal (storeEnv 50 (Some fourProposals) (Some fourProposals) (Some fourProposals) None)
          (Some "3")))
  = [Called (GetTransformationMatch KProposal "juno1proposals" "proposal:3");
     Called (GetDateFirstTransformed "juno1proposals" "proposal:3" None)].
Proof. by vm_compute. Qed.

Lemma ascending_page_5_7 : ascendingIds fourProposals (Some "2") (Some "3") = [5; 7].
Proof. by vm_compute. Qed.

Lemma descending_page_3_1 : descendingIds fourProposals None (Some "5") = [3; 1].
Proof. by vm_compute. Qed.

Lemma ascending_page_all : ascendingIds fourProposals None (Some "-4") = [1; 3; 5; 7].
Proof. by vm_compute. Qed.


Lemma fifty_one_voters : length (pageVoters fiftyOneBallots None None) = 51%nat.
Proof. by vm_compute. Qed.

Lemma two_voters : pageVoters twoBallots None None = ["juno1alice"; "juno1bob"].
Proof. by vm_compute. Qed.


Lemma passed_page_is_cut_first :
  eval (storeEnv 50 None None (Some twoProposals) None)
    (listProposals (storeEnv 50 None None (Some twoProposals) None)
       (Some "1") None (Some "passed")) = Returned [] /\
  (exists r,
     eval (storeEnv 50 None None (Some twoProposals) None)
       (listProposals (storeEnv 50 None None (Some twoProposals) None)
          (Some "1") (Some "1") (Some "passed")) = Returned [r] /\
     r.(res_id) = Num 2 /\
     r.(res_proposal).(status) = Enum StatusEnum.Passed).
Proof. split; [by vm_compute|]. eexists. split; [by vm_compute|done]. Qed.

Lemma listProposals_filters_after_truncation_witness :
  (exists page responses,
     ascending_page (dom twoProposals) None (Some 1) page /\
     length page = 1%nat /\
     Forall2 (fun id r =>
                exists record,
                  twoProposals !! id = Some record /\
                  evalT (storeEnv 50 None None (Some twoProposals) None)
                    (intoResponse (storeEnv 50 None None (Some twoProposals) None)
                       record (Num id) false) = Returned r)
       page responses /\
     eval (storeEnv 50 None None (Some twoProposals) None)
       (listProposals (storeEnv 50 None None (Some twoProposals) None)
          (Some "1") None (Some "passed"))
     = Returned []) /\
  (exists r,
     eval (storeEnv 50 None None (Some twoProposals) None)
       (listProposals (storeEnv 50 None None (Some twoProposals) None)
          (Some "1") (Some "1") (Some "passed")) = Returned [r] /\
     r.(res_id) = Num 2 /\
     r.(res_proposal).(status) = Enum StatusEnum.Passed).
Proof.
  split; [|exact (proj2 passed_page_is_cut_first)].
  destruct (listProposals_filters_after_truncation
              (storeEnv 50 None None (Some twoProposals) None)
              (Some "1") None (Some "passed") twoProposals false None (Some 1))
    as (page & responses & result & Hpage & Hall & Hresult & _).
  - reflexivity.
  - apply (bool_decide_unpack _). by vm_compute.
  - split; [done|by vm_compute].
  - done.
  - done.
  - exists page, responses. split; [exact Hpage|]. split; [|split; [exact Hall|]].
    + destruct Hpage as (all & _ & Helem & ->).
      assert (1 ∈ all) as Hin.
      { apply Helem. split; [|done]. apply (bool_decide_unpack _). by vm_compute. }
      destruct all as [|id all]; [by inv Hin|done].
    + rewrite Hresult. f_equal.
      pose proof (proj1 passed_page_is_cut_first) as Hempty.
      rewrite Hresult in Hempty. by injection Hempty.
Defined.

(** C3, the formula that misses the guard: [vote] checks its [proposalId] for
    presence only.  With a non-numeric or a negative [proposalId], which the
    guard of [listVotes] and [voteCount] turns down, it throws nothing and
    queries the environment. *)
Theorem vote_accepts_malformed_proposalId :
  invalidId (Some "abc") = true /\
  invalidId (Some "-1") = true /\
  listVotes (blockEnv 50) (Some "abc") None None = Throw "missing `proposalId`" /\
  runT (blockEnv 50) (vote (blockEnv 50) (Some "abc") (Some "juno1voter"))
  = (Returned None,
     [Called (GetTransformationMatch KVoteCast "juno1proposals" "voteCast:juno1voter:abc");
      Called (Get KBallot "juno1proposals" [KeyS "ballots"; KeyN NaN; KeyS "juno1voter"])]) /\
  runT (blockEnv 50) (vote (blockEnv 50) (Some "-1") (Some "juno1voter"))
  = (Returned None,
     [Called (GetTransformationMatch KVoteCast "juno1proposals" "voteCast:juno1voter:-1");
      Called (Get KBallot "juno1proposals" [KeyS "ballots"; KeyN (Num (-1)); KeyS "juno1voter"])]).
Proof. repeat split; by vm_compute. Qed.

(** ** The order of the addresses *)

Lemma compare_not_Gt_trans (a b c : string) :
  String.compare a b <> Gt -> String.compare b c <> Gt -> String.compare a c <> Gt.
Proof.
  revert b c. induction a as [|x a IH]; intros [|y b] [|z c]; cbn; try congruence.
  unfold Ascii.compare.
  destruct (N.compare_spec (Ascii.N_of_ascii x) (Ascii.N_of_ascii y)) as [Hxy|Hxy|Hxy];
    destruct (N.compare_spec (Ascii.N_of_ascii y) (Ascii.N_of_ascii z)) as [Hyz|Hyz|Hyz];
    destruct (N.compare_spec (Ascii.N_of_ascii x) (Ascii.N_of_ascii z)) as [Hxz|Hxz|Hxz];
    try congruence; try lia.
  apply IH.
Qed.

Lemma compareStrings_le (a b : string) : compareStrings a b <= 0 <-> String.compare a b <> Gt.
Proof. unfold compareStrings. destruct (String.compare a b); split; (done || lia). Qed.

#[global] Instance compareStrings_trans : Transitive (@before string compareStrings).
Proof.
  intros a b c. unfold before. rewrite !compareStrings_le. apply compare_not_Gt_trans.
Qed.

#[global] Instance compareStrings_total : Total (@before string compareStrings).
Proof.
  intros a b. unfold before. rewrite !compareStrings_le.
  rewrite (String.compare_antisym b a). destruct (String.compare a b); cbn; auto.
Qed.

(** ** Further worked examples *)

Lemma proposalCreatedAt_resolution_witness :
  runT (storeEnv 50 None None (Some fourProposals) None)
    (proposalCreatedAt (storeEnv 50 None None (Some fourProposals) None) (Some "3"))
  = (Returned (Some "T1000"),
     [Called (GetDateFirstTransformed "juno1proposals" "proposal:3" None);
      Called (GetDateKeyFirstSet "juno1proposals" [KeyS "proposals_v2"; KeyN (Num 3)])]).
Proof.
  exact (proposalCreatedAt_resolution (storeEnv 50 None None (Some fourProposals) None)
           (Some "3") eq_refl).
Defined.

Lemma proposal_found_iff_witness :
  (exists r,
     evalT (storeEnv 50 None None (Some fourProposals) None)
       (proposal (storeEnv 50 None None (Some fourProposals) None) (Some "3")) = Returned (Some r) /\
     r.(res_id) = Num 3) /\
  evalT (storeEnv 50 None None (Some fourProposals) None)
    (proposal (storeEnv 50 None None (Some fourProposals) None) (Some "4")) = Returned None.
Proof.
  split.
  - destruct (proposal_found_iff (storeEnv 50 None None (Some fourProposals) None)
                (Some "3") eq_refl) as ([r|] & Hr & Hnone & Hid).
    + exists r. split; [exact Hr|]. by apply Hid.
    + by destruct (proj1 Hnone eq_refl) as (_ & _ & [=]).
  - destruct (proposal_found_iff (storeEnv 50 None None (Some fourProposals) None)
                (Some "4") eq_refl) as (result & Hr & Hnone & _).
    rewrite Hr. f_equal. by apply Hnone.
Defined.

Lemma intoResponse_keeps_record_witness :
  let stored := aProposal StatusEnum.Open (Some {| timelock_duration := 10 |}) true false in
  let r := responseOf (blockEnv 105) stored (Num 1) false in
  r.(res_proposal).(status) = veto_timelock 110 /\
  r.(res_id) = Num 1 /\
  r.(res_proposal).(expiration) = 100 /\
  r.(res_proposal).(veto) = Some {| timelock_duration := 10 |} /\
  r.(res_proposal).(rest) = (true, false) /\
  evalT (blockEnv 105) (proposalCreatedAt (blockEnv 105) (Some "1")) = Returned r.(createdAt).
Proof.
  split; [reflexivity|].
  exact (intoResponse_keeps_record (blockEnv 105)
           (aProposal StatusEnum.Open (Some {| timelock_duration := 10 |}) true false)
           (Num 1) false _ eq_refl).
Defined.

Lemma status_transitions_witness :
  let stored := aProposal StatusEnum.Open None false false in
  let r := responseOf (blockEnv 150) stored (Num 1) false in
  r.(res_proposal).(status) = Enum StatusEnum.Rejected /\
  (r.(res_proposal).(status) = stored.(status) \/
   (stored.(status) = Enum StatusEnum.Open /\
    (r.(res_proposal).(status) = Enum StatusEnum.Passed \/
     r.(res_proposal).(status) = Enum StatusEnum.Rejected \/
     exists v,
       stored.(veto) = Some v /\
       r.(res_proposal).(status) =
       veto_timelock (expirationPlusDuration stored.(expiration) v.(timelock_duration)))) \/
   (exists e,
      stored.(status) = veto_timelock e /\
      r.(res_proposal).(status) = Enum StatusEnum.Passed)).
Proof.
  split; [reflexivity|].
  exact (status_transitions (blockEnv 150) (aProposal StatusEnum.Open None false false)
           (Num 1) false _ eq_refl).
Defined.

Lemma schema_only_affects_status_dates_witness :
  let stored := aProposal StatusEnum.Open None false false in
  let r2 := responseOf (blockEnv 50) stored (Num 1) true in
  let r1 := responseOf (blockEnv 50) stored (Num 1) false in
  r1.(res_proposal).(status) = Enum StatusEnum.Open /\ r2 = r1.
Proof.
  split; [reflexivity|].
  exact (proj1 (proj2 (proj2 (proj2
           (schema_only_affects_status_dates (blockEnv 50)
              (aProposal StatusEnum.Open None false false) (Num 1) _ _ eq_refl eq_refl))))
           eq_refl).
Defined.

Lemma status_dates_follow_status_witness :
  let r := responseOf (blockEnv 150) (aProposal StatusEnum.Closed None false true) (Num 7) true in
  r.(closedAt) = Some "T3000" /\
  r.(executedAt) = None /\
  r.(completedAt) = Some "T3000" /\
  r.(res_proposal).(status) = Enum StatusEnum.Closed.
Proof.
  split; [reflexivity|]. split; [reflexivity|]. split; [reflexivity|].
  apply (status_dates_follow_status (blockEnv 150)
           (aProposal StatusEnum.Closed None false true) (Num 7) true _ eq_refl).
  by eexists.
Defined.

Lemma descending_page_2 : descendingIds twoProposals (Some "1") (Some "3") = [2].
Proof. by vm_compute. Qed.

Lemma reverseProposals_page_witness :
  exists page responses,
    descending_page (dom twoProposals) (Some 3) (Some 1) page /\
    Forall2 (fun id r =>
               exists record,
                 twoProposals !! id = Some record /\
                 evalT (storeEnv 50 None None (Some twoProposals) None)
                   (intoResponse (storeEnv 50 None None (Some twoProposals) None)
                      record (Num id) false) = Returned r)
      page responses /\
    eval (storeEnv 50 None None (Some twoProposals) None)
      (reverseProposals (storeEnv 50 None None (Some twoProposals) None) (Some "1") (Some "3"))
    = Returned responses.
Proof.
  apply (reverseProposals_page
           (storeEnv 50 None None (Some twoProposals) None)
           (Some "1") (Some "3") twoProposals false (Some 3) (Some 1)).
  - reflexivity.
  - apply (bool_decide_unpack _). by vm_compute.
  - split; [done|by vm_compute].
  - split; [done|by vm_compute].
  - cbn. lia.
Defined.

Lemma stray_page : ascendingIds strayProposals None None = [-1; 2].
Proof. by vm_compute. Qed.

Lemma listing_throws_iff_witness :
  eval (storeEnv 50 None None (Some strayProposals) None)
    (listProposals (storeEnv 50 None None (Some strayProposals) None) None None None)
  = Thrown "missing `id`" /\
  forall m,
    eval (storeEnv 50 None None (Some twoProposals) None)
      (reverseProposals (storeEnv 50 None None (Some twoProposals) None) None None)
    <> Thrown m.
Proof.
  split.
  - apply (listing_throws_iff (storeEnv 50 None None (Some strayProposals) None)
             None None None strayProposals false "missing `id`" eq_refl).
    split; [done|]. rewrite stray_page. by left.
  - intros m Hm.
    apply (listing_throws_iff (storeEnv 50 None None (Some twoProposals) None)
             None None None twoProposals false m eq_refl) in Hm as [_ Hneg].
    revert Hneg. apply (bool_decide_unpack _). by vm_compute.
Defined.

Lemma unreadable_page_arguments_witness :
  (eval (storeEnv 50 None None (Some fourProposals) None)
     (listProposals (storeEnv 50 None None (Some fourProposals) None) (Some "ten") None None)
   = Returned [] /\
   eval (storeEnv 50 None None (Some fourProposals) None)
     (reverseProposals (storeEnv 50 None None (Some fourProposals) None) (Some "ten") None)
   = Returned []) /\
  (eval (storeEnv 50 None None (Some fourProposals) None)
     (listProposals (storeEnv 50 None None (Some fourProposals) None) (Some "-2") None None)
   = Returned [] /\
   eval (storeEnv 50 None None (Some fourProposals) None)
     (reverseProposals (storeEnv 50 None None (Some fourProposals) None) (Some "-2") None)
   = Returned []) /\
  (eval (storeEnv 50 None None (Some fourProposals) None)
     (listProposals (storeEnv 50 None None (Some fourProposals) None) None (Some "last") None)
   = Returned [] /\
   eval (storeEnv 50 None None (Some fourProposals) None)
     (reverseProposals (storeEnv 50 None None (Some fourProposals) None) None (Some "last"))
   = Returned []).
Proof.
  split; [|split].
  - apply (unreadable_page_arguments (storeEnv 50 None None (Some fourProposals) None)
             (Some "ten") None None).
    left. split; [reflexivity|]. left. reflexivity.
  - apply (unreadable_page_arguments (storeEnv 50 None None (Some fourProposals) None)
             (Some "-2") None None).
    left. split; [reflexivity|]. right. exists (-2). split; [reflexivity|lia].
  - apply (unreadable_page_arguments (storeEnv 50 None None (Some fourProposals) None)
             None (Some "last") None).
    right. split; reflexivity.
Defined.

Lemma empty_index_hides_raw_witness :
  run (storeEnv 50 (Some ∅) (Some fourProposals) None None)
    (listProposals (storeEnv 50 (Some ∅) (Some fourProposals) None None) None None None)
  = (Returned [], [Called (GetTransformationMap KProposal "juno1proposals" "proposal")]) /\
  run (storeEnv 50 (Some ∅) (Some fourProposals) None None)
    (reverseProposals (storeEnv 50 (Some ∅) (Some fourProposals) None None) None None)
  = (Returned [], [Called (GetTransformationMap KProposal "juno1proposals" "proposal")]).
Proof.
  exact (empty_index_hides_raw (storeEnv 50 (Some ∅) (Some fourProposals) None None)
           None None None eq_refl).
Defined.

Lemma vote_resolution_witness :
  runT votesEnv (vote votesEnv (Some "1") (Some "juno1alice"))
  = (Returned (Some {| vi_voter := "juno1alice"; vi_ballot := Some "yes"; vi_votedAt := None |}),
     [Called (GetTransformationMatch KVoteCast "juno1proposals" "voteCast:juno1alice:1")]) /\
  runT votesEnv (vote votesEnv (Some "1") (Some "juno1bob"))
  = (Returned (Some {| vi_voter := "juno1bob"; vi_ballot := Some "no";
                       vi_votedAt := Some "T4000" |}),
     [Called (GetTransformationMatch KVoteCast "juno1proposals" "voteCast:juno1bob:1");
      Called (Get KBallot "juno1proposals" [KeyS "ballots"; KeyN (Num 1); KeyS "juno1bob"]);
      Called (GetDateKeyModified "juno1proposals"
                [KeyS "ballots"; KeyN (Num 1); KeyS "juno1bob"])]) /\
  runT votesEnv (vote votesEnv (Some "1") (Some "juno1carol"))
  = (Returned None,
     [Called (GetTransformationMatch KVoteCast "juno1proposals" "voteCast:juno1carol:1");
      Called (Get KBallot "juno1proposals" [KeyS "ballots"; KeyN (Num 1); KeyS "juno1carol"])]).
Proof.
  split; [|split].
  - exact (proj1 (vote_resolution votesEnv (Some "1") (Some "juno1alice") eq_refl eq_refl)).
  - exact (proj1 (vote_resolution votesEnv (Some "1") (Some "juno1bob") eq_refl eq_refl)).
  - exact (proj1 (vote_resolution votesEnv (Some "1") (Some "juno1carol") eq_refl eq_refl)).
Defined.

Lemma listVotes_index_page_witness :
  run votesEnv (listVotes votesEnv (Some "1") (Some "1") None)
  = (Returned
       [{| vi_voter := "juno1bob"; vi_ballot := Some "no"; vi_votedAt := Some "T7000" |};
        {| vi_voter := "juno1alice"; vi_ballot := Some "yes"; vi_votedAt := None |}],
     [Called (GetTransformationMatches KVoteCast "juno1proposals" "voteCast:*:1"
                None (Some (Num 1)))]).
Proof.
  exact (listVotes_index_page votesEnv (Some "1") (Some "1") None indexedVotes eq_refl eq_refl).
Defined.

Lemma listVotes_raw_page_witness :
  exists votes,
    eval votesEnv (listVotes votesEnv (Some "2") (Some "5") (Some "juno1alice")) = Returned votes /\
    NoDup (map vi_voter votes) /\
    Forall (fun v =>
              is_Some v.(vi_ballot) /\
              v.(vi_ballot) = twoBallots !! v.(vi_voter) /\
              0 < compareStrings v.(vi_voter) "juno1alice") votes /\
    (length votes <= 5)%nat.
Proof.
  destruct (listVotes_raw_page votesEnv (Some "2") (Some "5") (Some "juno1alice")
              eq_refl eq_refl) as (votes & Hvotes & Hnodup & Hall & Hlength & _).
  exists votes. split; [exact Hvotes|]. split; [exact Hnodup|]. split.
  - eapply Forall_impl; [exact Hall|]. intros v (Hsome & Hballot & Hafter).
    split; [exact Hsome|]. split; [exact Hballot|]. by apply Hafter.
  - apply (Hlength 5). split; [done|by vm_compute].
Defined.

Lemma listVotes_raw_sorted_witness :
  exists votes,
    eval votesEnv (listVotes votesEnv (Some "2") None None) = Returned votes /\
    StronglySorted (before compareStrings) (map vi_voter votes).
Proof.
  exact (listVotes_raw_sorted votesEnv (Some "2") None None
           compareStrings_trans compareStrings_total eq_refl eq_refl).
Defined.

Lemma voters_of_proposal_2 :
  eval votesEnv (listVotes votesEnv (Some "2") None None)
  = Returned
      [{| vi_voter := "juno1alice"; vi_ballot := Some "yes"; vi_votedAt := Some "T4000" |};
       {| vi_voter := "juno1bob"; vi_ballot := Some "no"; vi_votedAt := Some "T4000" |}].
Proof. by vm_compute. Qed.

Lemma openProposals_of_listing_witness :
  eval votesEnv (openProposals votesEnv (Some "juno1alice"))
  = Returned
      [({| res_id := Num 1;
           res_proposal := aProposal StatusEnum.Open None false false;
           createdAt := Some "T1000";
           completedAt := None; executedAt := None; closedAt := None |},
        Some true)] /\
  eval votesEnv (openProposals votesEnv (Some "juno1carol"))
  = Returned
      [({| res_id := Num 1;
           res_proposal := aProposal StatusEnum.Open None false false;
           createdAt := Some "T1000";
           completedAt := None; executedAt := None; closedAt := None |},
        Some false)] /\
  eval votesEnv (openProposals votesEnv None)
  = Returned
      [({| res_id := Num 1;
           res_proposal := aProposal StatusEnum.Open None false false;
           createdAt := Some "T1000";
           completedAt := None; executedAt := None; closedAt := None |},
        None)].
Proof.
  split; [|split].
  - exact (openProposals_of_listing votesEnv (Some "juno1alice")).
  - exact (openProposals_of_listing votesEnv (Some "juno1carol")).
  - exact (openProposals_of_listing votesEnv None).
Defined.

Lemma listed_backwards :
  outcome_map (fmap res_id) (eval votesEnv (reverseProposals votesEnv None None))
  = Returned [Num 7; Num 5; Num 3; Num 1].
Proof. by vm_compute. Qed.

Lemma reverseProposals_reverses_listing_witness :
  eval votesEnv (reverseProposals votesEnv None None)
  = outcome_map reverse (eval votesEnv (listProposals votesEnv None None None)).
Proof. exact (reverseProposals_reverses_listing votesEnv). Defined.

Lemma guarded_formulas_witness :
  runT (blockEnv 50) (voteCount (blockEnv 50) (Some "-1")) = (Thrown "missing `proposalId`", []) /\
  runT (blockEnv 50) (proposalCreatedAt (blockEnv 50) (Some "abc")) = (Thrown "missing `id`", []) /\
  run (blockEnv 50) (listVotes (blockEnv 50) None None None) = (Thrown "missing `proposalId`", []) /\
  returns (blockEnv 50) (voteCount (blockEnv 50) (Some "0")).
Proof.
  split; [|split; [|split]].
  - exact (proj1 (proj2 (proj2 (proj1 (guarded_formulas (blockEnv 50) (Some "-1")) eq_refl)))).
  - exact (proj1 (proj2 (proj1 (guarded_formulas (blockEnv 50) (Some "abc")) eq_refl))).
  - exact (proj2 (proj2 (proj2 (proj1 (guarded_formulas (blockEnv 50) None) eq_refl))) None None).
  - exact (proj1 (proj2 (proj2 (proj2 (guarded_formulas (blockEnv 50) (Some "0")) eq_refl)))).
Defined.

Lemma first_three_listed :
  outcome_map (fmap res_id) (eval votesEnv (listProposals votesEnv (Some "3") None None))
  = Returned [Num 1; Num 3; Num 5].
Proof. by vm_compute. Qed.

Lemma listings_ordered_and_bounded_witness :
  exists responses,
    eval votesEnv (listProposals votesEnv (Some "3") None None) = Returned responses /\
    StronglySorted (fun a b => lt a b = true) (res_id <$> responses) /\
    (length responses <= 3)%nat.
Proof.
  assert (exists responses,
            eval votesEnv (listProposals votesEnv (Some "3") None None) = Returned responses)
    as [responses Hresponses].
  { eexists. by vm_compute. }
  exists responses. split; [exact Hresponses|].
  destruct (proj1 (listings_ordered_and_bounded votesEnv (Some "3") None None)
              responses Hresponses) as [Hsorted Hlength].
  split; [exact Hsorted|]. apply (Hlength 3). split; [done|by vm_compute].
Defined.

Lemma passed_listed :
  outcome_map (fmap res_id) (eval votesEnv (listProposals votesEnv None None (Some "passed")))
  = Returned [Num 3; Num 5].
Proof. by vm_compute. Qed.

Lemma status_filter_of_listing_witness :
  eval votesEnv (listProposals votesEnv None None (Some "rejected"))
  = eval votesEnv (listProposals votesEnv None None None) /\
  exists responses,
    eval votesEnv (listProposals votesEnv None None (Some "passed")) = Returned responses /\
    Forall (fun r =>
              r.(res_proposal).(status) = Enum StatusEnum.Passed \/
              r.(res_proposal).(status) = Enum StatusEnum.Executed \/
              r.(res_proposal).(status) = Enum StatusEnum.ExecutionFailed) responses.
Proof.
  split.
  - by apply (status_filter_of_listing votesEnv None None (Some "rejected")).
  - assert (exists responses,
              eval votesEnv (listProposals votesEnv None None (Some "passed")) = Returned responses)
      as [responses Hresponses].
    { eexists. by vm_compute. }
    exists responses. split; [exact Hresponses|].
    by apply (status_filter_of_listing votesEnv None None (Some "passed")).
Defined.

Lemma config_prefers_v2_witness :
  runT (configEnv (Some "juno1dao") (Some "juno1old"))
    (dao (fun config => config) (configEnv (Some "juno1dao") (Some "juno1old")))
  = (Returned (Some "juno1dao"), [Called (Get KConfig "juno1proposals" [KeyS "config_v2"])]) /\
  runT (configEnv None (Some "juno1old"))
    (dao (fun config => config) (configEnv None (Some "juno1old")))
  = (Returned (Some "juno1old"),
     [Called (Get KConfig "juno1proposals" [KeyS "config_v2"]);
      Called (Get KConfig "juno1proposals" [KeyS "config"])]).
Proof.
  split.
  - exact (proj2 (config_prefers_v2 (fun config => config)
                    (configEnv (Some "juno1dao") (Some "juno1old")))).
  - exact (proj2 (config_prefers_v2 (fun config => config) (configEnv None (Some "juno1old")))).
Defined.

Lemma doubles_round :
  double (2 ^ 53 + 1) = Num (2 ^ 53) /\
  double (2 ^ 53 + 2) = Num (2 ^ 53 + 2) /\
  double (2 ^ 53 + 3) = Num (2 ^ 53 + 4) /\
  double (- (2 ^ 53 + 1)) = Num (- 2 ^ 53) /\
  double (2 ^ 1024 - 2 ^ 971) = Num (2 ^ 1024 - 2 ^ 971) /\
  double (2 ^ 1024 - 2 ^ 970 - 1) = Num (2 ^ 1024 - 2 ^ 971) /\
  double (2 ^ 1024 - 2 ^ 970) = Infinity /\
  double (- 2 ^ 1024) = NegInfinity.
Proof. repeat split; by vm_compute. Qed.

Lemma nextProposalId_successor_witness :
  evalT (countEnv None) (nextProposalId (countEnv None)) = Returned (Num 1) /\
  evalT (countEnv (Some (Num 41))) (nextProposalId (countEnv (Some (Num 41))))
  = Returned (Num 42) /\
  evalT (countEnv (Some (Num 9007199254740992)))
    (nextProposalId (countEnv (Some (Num 9007199254740992))))
  = Returned (Num 9007199254740992).
Proof.
  split; [|split].
  - exact (proj1 (proj2 (proj2 (nextProposalId_successor (countEnv None)))) eq_refl).
  - apply (proj1 (proj2 (proj2 (proj2 (nextProposalId_successor (countEnv (Some (Num 41)))))))
             41 eq_refl).
    lia.
  - exact (proj2 (proj2 (proj2 (proj2
             (nextProposalId_successor (countEnv (Some (Num 9007199254740992)))))))
             eq_refl).
Defined.

Lemma intoResponse_calls_witness :
  traceT (blockEnv 50)
    (intoResponse (blockEnv 50) (aProposal StatusEnum.Open None false false) (Num 1) false)
  = [Called (GetDateFirstTransformed "juno1proposals" "proposal:1" None);
     Called (GetDateKeyFirstSet "juno1proposals" [KeyS "proposals_v2"; KeyN (Num 1)])] /\
  calls_le (blockEnv 50) 3
    (intoResponse (blockEnv 50) (aProposal StatusEnum.Open None false false) (Num 1) false).
Proof.
  exact (proj2 (proj2 (intoResponse_calls (blockEnv 50)
                         (aProposal StatusEnum.Open None false false) (Num 1) false))
           eq_refl).
Defined.

Lemma listing_calls_bounded_witness :
  (length (run votesEnv (listProposals votesEnv (Some "2") None None)).2 <= 17)%nat /\
  (length (run votesEnv (reverseProposals votesEnv (Some "2") None)).2 <= 17)%nat.
Proof.
  exact (listing_calls_bounded votesEnv (Some "2") None None 2 (conj eq_refl eq_refl)).
Defined.

